(** * Sports-day scoreboard: the browser-side controllers

    A shallow embedding of the Stimulus controllers that drive score entry,
    score display, filtering, the status banner, the SQLite console and
    the log viewer, together with the properties their specification
    states about them and further properties of the code.

    Conventions of the embedding.

    - A controller method is a computation in the monad [Js.M S]: it reads
      and writes a state [S] (the part of the page the controller owns) and
      completes normally or by throwing.  What was written before a throw
      stays written, as in the browser.
    - [this.xTarget] of Stimulus throws when the controller has no such
      target, [this.hasXTarget] tells whether it has one; a target is
      therefore an [option].
    - [document.dispatchEvent] appends the event to the list of events the
      document has seen; the listeners that live outside these controllers
      are not part of the embedding.  [console.log] has no effect on any
      state kept here and is left out.
    - [style.backgroundColor] of an element and the [value] of a field
      hold the string last assigned to them.  The [value] of a select is
      that of its selected option, and [innerHTML] is parsed where it is
      assigned and serialized where it is read.
    - An [async] method is cut at each [await] into the parts that run
      without interruption; how the awaited promise settles is an input of
      the next part, and other actions may come in between.  Timers and
      listeners are known by the order of their making.
    - Strings are Rocq strings: sequences of bytes, which for ASCII text are
      the characters; other text stands as its UTF-8 bytes.  An object used
      as a dictionary is the finite map of its own properties; where it is
      read, what it has not of its own comes from its prototypes, and
      where it is written the key [__proto__] goes to the setter it
      inherits. *)

From stdpp Require Import gmap strings list fin_maps pretty.
From Stdlib Require Import Ascii String.

Local Open Scope string_scope.

(** ** Completions, and the state-and-exception monad of controller code *)

Module Js.

Inductive Error : Type :=
| SyntaxError                      (* JSON.parse on malformed text *)
| TypeError                        (* property read on null, call of a non-function *)
| MissingTarget (name : string).   (* Stimulus: this.xTarget without a target *)

Inductive Completion (A : Type) : Type :=
| Normal (a : A)
| Throw (e : Error).
Arguments Normal {A} a.
Arguments Throw {A} e.

Definition M (S A : Type) : Type := S → Completion A * S.

Definition ret {S A} (a : A) : M S A := λ s, (Normal a, s).

Definition bind {S A B} (m : M S A) (k : A → M S B) : M S B :=
  λ s, match m s with
       | (Normal a, s') => k a s'
       | (Throw e, s') => (Throw e, s')
       end.

Definition throw {S A} (e : Error) : M S A := λ s, (Throw e, s).

Definition gets {S A} (f : S → A) : M S A := λ s, (Normal (f s), s).

Definition modify {S} (f : S → S) : M S unit := λ s, (Normal tt, f s).

(** [try { body } catch (e) { handler }] *)
Definition try_catch {S A} (body : M S A) (handler : Error → M S A) : M S A :=
  λ s, match body s with
       | (Normal a, s') => (Normal a, s')
       | (Throw e, s') => handler e s'
       end.

(** Run a computation on a part of the state selected by a lens. *)
Definition zoom {S T A} (get : S → T) (set : T → S → S) (m : M T A) : M S A :=
  λ s, let '(r, t) := m (get s) in (r, set t s).

(** [targets.forEach(callback)] where the callback works on the element
    it is handed: elements are visited in order, and a callback that
    throws ends the loop with the rest untouched. *)
Fixpoint forEach {E} (callback : M E unit) (targets : list E)
  : Completion unit * list E :=
  match targets with
  | [] => (Normal tt, [])
  | x :: rest =>
      match callback x with
      | (Normal _, x') =>
          let '(r, rest') := forEach callback rest in (r, x' :: rest')
      | (Throw e, x') => (Throw e, x' :: rest)
      end
  end.

(** [s.split(sep)] for a one-character separator. *)
Fixpoint split (sep : ascii) (s : string) : list string :=
  match s with
  | EmptyString => [EmptyString]
  | String c rest =>
      if Ascii.eqb c sep then EmptyString :: split sep rest
      else match split sep rest with
           | seg :: segs => String c seg :: segs
           | [] => [String c EmptyString]
           end
  end.

(** [l.join(sep)] *)
Fixpoint join (sep : string) (l : list string) : string :=
  match l with
  | [] => ""
  | [s] => s
  | s :: rest => s ++ sep ++ join sep rest
  end.

(** [s.includes(c)] for a single character. *)
Fixpoint includes (c : ascii) (s : string) : bool :=
  match s with
  | EmptyString => false
  | String a rest => Ascii.eqb a c || includes c rest
  end.

(** An absent property key reads as the string "undefined". *)
Definition ToPropertyKey (k : option string) : string :=
  match k with
  | Some s => s
  | None => "undefined"
  end.

End Js.

(** stdpp's monad classes give the notations [x ← m; k] and [m;; k]. *)
#[global] Instance M_ret {S} : MRet (Js.M S) := @Js.ret S.
#[global] Instance M_bind {S} : MBind (Js.M S) := λ A B k m, Js.bind m k.

(** ** The events the controllers put on the document *)

Inductive CustomEvent : Type :=
| scoreUpdate (event_id : string) (scores : gmap string string)
| scoreUpdateSubmitted
| doSafeScoreRedirect (params : string)
| updateStatus (status : string).

(** ** Score entry form ([score_set_controller.ts]) *)

Module ScoreSet.

(** A field target: the [id] and the current [value] of the element. *)
Record Field : Type := { field_id : string; field_value : string }.

Record FormTarget : Type := { form_id : string }.

(** The button target, of which only [style.backgroundColor] is written. *)
Record Button : Type := { backgroundColor : string }.

(** What one controller instance sees of the page: its targets and its
    [status] value (a string: whatever the page was rendered with). *)
Record Controller : Type := {
  fieldTargets : list Field;
  formTarget : option FormTarget;
  buttonTarget : option Button;
  statusValue : string;
}.

(** The state [submit] works on: the controller and the events the
    document has been handed so far. *)
Record World : Type := { this : Controller; document : list CustomEvent }.

Definition set_statusValue (v : string) (c : Controller) : Controller :=
  {| fieldTargets := fieldTargets c; formTarget := formTarget c;
     buttonTarget := buttonTarget c; statusValue := v |}.

Definition set_buttonTarget (b : Button) (c : Controller) : Controller :=
  {| fieldTargets := fieldTargets c; formTarget := formTarget c;
     buttonTarget := Some b; statusValue := statusValue c |}.

Definition set_this (c : Controller) (w : World) : World :=
  {| this := c; document := document w |}.

Definition hasButtonTarget (c : Controller) : bool :=
  match buttonTarget c with Some _ => true | None => false end.

(** [this.formTarget] and [this.buttonTarget]: Stimulus throws when the
    target is missing. *)
Definition get_formTarget : Js.M Controller FormTarget :=
  λ c, match formTarget c with
       | Some t => Js.ret t c
       | None => Js.throw (Js.MissingTarget "form") c
       end.

Definition get_buttonTarget : Js.M Controller Button :=
  λ c, match buttonTarget c with
       | Some b => Js.ret b c
       | None => Js.throw (Js.MissingTarget "button") c
       end.

(** [this.buttonTarget.style.backgroundColor = color] *)
Definition set_backgroundColor (color : string) : Js.M Controller unit :=
  _ ← get_buttonTarget;
  Js.modify (set_buttonTarget {| backgroundColor := color |}).

Definition dispatchEvent (e : CustomEvent) : Js.M World unit :=
  Js.modify (λ w, {| this := this w; document := document w ++ [e] |}).

(** [val.id.split("-")[3]], used as a property key. *)
Definition form_id_of (val : Field) : option string :=
  Js.split "-" (field_id val) !! 3%nat.

(** The body of [fieldTargets.forEach]: [obj[form_id] = val.value], on
    the plain object [obj].  A string assigned under "__proto__" goes to
    the setter every object inherits, which takes objects and null only
    and leaves [obj] as it is; under any other key the value becomes a
    property of [obj]. *)
Definition record_field (obj : gmap string string) (val : Field)
  : gmap string string :=
  let form_id := Js.ToPropertyKey (form_id_of val) in
  if decide (form_id = "__proto__") then obj
  else <[form_id := field_value val]> obj.

Definition collect_scores (fields : list Field) : gmap string string :=
  foldl record_field ∅ fields.

Definition submit : Js.M World unit :=
  obj ← Js.gets (λ w, collect_scores (fieldTargets (this w)));
  form ← Js.zoom this set_this get_formTarget;
  dispatchEvent (scoreUpdate (form_id form) obj);;
  has ← Js.gets (λ w, hasButtonTarget (this w));
  if has : bool then
    Js.zoom this set_this
      (set_backgroundColor "yellow";; Js.modify (set_statusValue "pending"))
  else mret tt.

(** The listener [connect] registers for "scoreUpdateSubmitted". *)
Definition onScoreUpdateSubmitted : Js.M Controller unit :=
  status ← Js.gets statusValue;
  if decide (status = "pending") then
    set_backgroundColor "green";; Js.modify (set_statusValue "completed")
  else mret tt.

(** The controllers mounted on a page and the "scoreUpdateSubmitted"
    listeners on the document, in registration order; a listener is the
    closure over its controller, here the controller's index. *)
Record Page : Type := {
  controllers : list Controller;
  listeners : list nat;
}.

Definition connect (i : nat) (p : Page) : Page :=
  {| controllers := controllers p; listeners := listeners p ++ [i] |}.

(** Mounting an element: the instance is created and connected. *)
Definition mount (p : Page) (c : Controller) : Page :=
  connect (List.length (controllers p))
    {| controllers := controllers p ++ [c]; listeners := listeners p |}.

Definition mount_all (cs : list Controller) : Page :=
  foldl mount {| controllers := []; listeners := [] |} cs.

(** The controller once its listener has run.  What the listener throws
    is reported by the browser and goes no further. *)
Definition after_signal (c : Controller) : Controller :=
  (onScoreUpdateSubmitted c).2.

Definition run_listener (cs : list Controller) (i : nat) : list Controller :=
  match cs !! i with
  | Some c => <[i := after_signal c]> cs
  | None => cs
  end.

(** An event of the document reaches the page: "scoreUpdateSubmitted"
    runs every registered listener in registration order; no other event
    has a listener here. *)
Definition deliver (p : Page) (e : CustomEvent) : Page :=
  match e with
  | scoreUpdateSubmitted =>
      {| controllers := foldl run_listener (controllers p) (listeners p);
         listeners := listeners p |}
  | _ => p
  end.

(** The user submits the form of the [i]-th controller of the page. *)
Definition submit_at (i : nat) (st : Page * list CustomEvent)
  : Page * list CustomEvent :=
  match controllers st.1 !! i with
  | Some c =>
      let w := (submit {| this := c; document := st.2 |}).2 in
      ({| controllers := <[i := this w]> (controllers st.1);
          listeners := listeners st.1 |}, document w)
  | None => st
  end.

(** What happens on a page: the user submits the form of a controller, or
    the document is handed an event from elsewhere. *)
Inductive Action : Type :=
| Submit (i : nat)
| Receive (e : CustomEvent).

Definition step (st : Page * list CustomEvent) (a : Action)
  : Page * list CustomEvent :=
  match a with
  | Submit i => submit_at i st
  | Receive e => (deliver st.1 e, (st.2 ++ [e])%list)
  end.

Definition run (actions : list Action) (st : Page * list CustomEvent)
  : Page * list CustomEvent :=
  foldl step st actions.

(** A form is rendered consistently when it is pending only with its
    status button in place. *)
Definition pending_with_button (c : Controller) : Prop :=
  statusValue c = "pending" → is_Some (buttonTarget c).

(** *** The field identifier in the specification's words

    There the identifier is the 4th segment of the id cut at every colon
    and every dash; [submit] cuts at dashes only. *)



End ScoreSet.

(** ** Score display initializer (the controller with the [score] value
    and the [select] targets) *)

Module ScoreDisplay.

(** An [option] element of a select: its value, and whether it is
    selected. *)
Record OptionElement : Type := { option_value : string; selectedness : bool }.

(** A select target: its [data-form-id] attribute, when it has one, and
    its list of options. *)
Record Select : Type := {
  data_form_id : option string;
  options : list OptionElement;
}.

(** Reading [select.value]: the value of the first option that is
    selected, the empty string when none is. *)
Definition value (sel : Select) : string :=
  match List.find selectedness (options sel) with
  | Some o => option_value o
  | None => ""
  end.

Definition deselect (o : OptionElement) : OptionElement :=
  {| option_value := option_value o; selectedness := false |}.

(** The first option of the value is selected and no other is. *)
Fixpoint select_first (v : string) (opts : list OptionElement)
  : list OptionElement :=
  match opts with
  | [] => []
  | o :: rest =>
      if String.eqb (option_value o) v
      then {| option_value := option_value o; selectedness := true |}
           :: map deselect rest
      else deselect o :: select_first v rest
  end.

Definition with_value (v : string) (sel : Select) : Select :=
  {| data_form_id := data_form_id sel;
     options := select_first v (options sel) |}.

(** [selectElement.value = v] *)
Definition set_value (v : string) : Js.M Select unit :=
  Js.modify (with_value v).

(** What the page renders of a select, whatever is selected in it. *)
Definition rendered (sel : Select) : option string * list string :=
  (data_form_id sel, option_value <$> options sel).

(** What [JSON.parse] can return, over the runtime's numbers. *)
#[local] Set Warnings "-register-all".
Inductive JSON (Number : Type) : Type :=
| JNull
| JBool (b : bool)
| JNumber (n : Number)
| JString (s : string)
| JArray (elems : list (JSON Number))
| JObject (props : gmap string (JSON Number)).
#[local] Set Warnings "register-all".
Arguments JNull {Number}.
Arguments JBool {Number} b.
Arguments JNumber {Number} n.
Arguments JString {Number} s.
Arguments JArray {Number} elems.
Arguments JObject {Number} props.

(** The kinds of value that have properties, each with a prototype of
    its own. *)
Inductive Kind : Type := KObject | KArray | KString | KNumber | KBoolean.

(** What a property read answers: a value of the parsed text, or a
    member the value inherits from its prototypes, a function or an
    object of the runtime, of which what its [toString()] answers is
    kept. *)
Inductive Value (Number : Type) : Type :=
| Parsed (v : JSON Number)
| Builtin (text : string).
Arguments Parsed {Number} v.
Arguments Builtin {Number} text.

(** The runtime is taken as given.  Its numbers are IEEE doubles;
    [JSON_parse] answers [None] where [JSON.parse] throws; [String_units]
    are the code units of a string, each as a string of its own;
    [inherited kind name] is the member of that name on the prototype
    chain of a value of the kind ([constructor], [toString], [__proto__]
    and so on), as the text its [toString()] answers, and [None] when
    there is no such member. *)
Record Runtime : Type := {
  Number : Type;
  Number_toString : Number → string;
  Number_of_nat : nat → Number;
  JSON_parse : string → option (JSON Number);
  String_units : string → list string;
  inherited : Kind → string → option string;
}.

Section Controller.

Context (rt : Runtime).

(** [v.toString()] for a value that is neither null nor undefined.  An
    array joins its elements with commas, null elements as the empty
    string; an object answers "[object Object]" unless an own property
    named "toString" (never a function in parsed JSON) stands in the way. *)
Fixpoint toString (v : JSON (Number rt)) : Js.Completion string :=
  match v with
  | JNull => Js.Throw Js.TypeError
  | JBool b => Js.Normal (if b then "true" else "false")
  | JNumber n => Js.Normal (Number_toString rt n)
  | JString s => Js.Normal s
  | JArray elems =>
      (fix join (l : list (JSON (Number rt))) : Js.Completion string :=
         match l with
         | [] => Js.Normal ""
         | x :: rest =>
             match (match x with JNull => Js.Normal "" | _ => toString x end) with
             | Js.Throw e => Js.Throw e
             | Js.Normal s =>
                 match rest with
                 | [] => Js.Normal s
                 | _ :: _ =>
                     match join rest with
                     | Js.Throw e => Js.Throw e
                     | Js.Normal r => Js.Normal (s ++ "," ++ r)
                     end
                 end
             end
         end) elems
  | JObject props =>
      match props !! "toString" with
      | Some _ => Js.Throw Js.TypeError
      | None => Js.Normal "[object Object]"
      end
  end.

(** The index an array or a string answers to under the key [k]. *)
Definition index_of_key (len : nat) (k : string) : option nat :=
  head (List.filter (λ i, String.eqb (pretty i) k) (seq 0 len)).

(** An own property when there is one, else the inherited member. *)
Definition own_or_inherited (own : option (JSON (Number rt))) (kind : Kind)
    (k : string) : option (Value (Number rt)) :=
  match own with
  | Some v => Some (Parsed v)
  | None => Builtin <$> inherited rt kind k
  end.

(** [v[k]]: [None] is undefined.  Reading a property of null throws.
    Objects have the members of the text as their own properties, arrays
    their elements and [length], strings their code units and [length];
    what a value has not of its own it inherits. *)
Definition Get (v : JSON (Number rt)) (k : string)
  : Js.Completion (option (Value (Number rt))) :=
  match v with
  | JNull => Js.Throw Js.TypeError
  | JObject props => Js.Normal (own_or_inherited (props !! k) KObject k)
  | JArray elems =>
      Js.Normal
        (own_or_inherited
           (if String.eqb k "length"
            then Some (JNumber (Number_of_nat rt (List.length elems)))
            else i ← index_of_key (List.length elems) k; elems !! i)
           KArray k)
  | JString s =>
      let units := String_units rt s in
      Js.Normal
        (own_or_inherited
           (if String.eqb k "length"
            then Some (JNumber (Number_of_nat rt (List.length units)))
            else i ← index_of_key (List.length units) k;
                 JString <$> units !! i)
           KString k)
  | JNumber _ => Js.Normal (own_or_inherited None KNumber k)
  | JBool _ => Js.Normal (own_or_inherited None KBoolean k)
  end.


Definition lift {S A} (r : Js.Completion A) : Js.M S A := λ s, (r, s).

(** The callback of [selectTargets.forEach], run on one select element. *)
Definition initialize (scoreValue : string) : Js.M Select unit :=
  Js.try_catch
    (eventScores ← lift (match JSON_parse rt scoreValue with
                         | Some v => Js.Normal v
                         | None => Js.Throw Js.SyntaxError
                         end);
     formId ← Js.gets data_form_id;
     match formId with
     | None | Some EmptyString => set_value "0"
     | Some formId =>
         formScore ← lift (Get eventScores formId);
         match formScore with
         | None | Some (Parsed JNull) => set_value "0"
         | Some (Parsed formScore) => v ← lift (toString formScore); set_value v
         | Some (Builtin text) => set_value text
         end
     end)
    (λ _, set_value "0").

Definition connect (scoreValue : string) : Js.M (list Select) unit :=
  Js.forEach (initialize scoreValue).

End Controller.

(** *** A runtime to run the examples on

    Numbers are integers printed in decimal, and the reader takes the flat
    maps the page is rendered with, an object of integer or null members
    with plain keys; any other text is refused.  Functions print the way
    V8 prints them. *)

Definition quote : ascii := "034".

Definition is_whitespace (c : ascii) : bool :=
  Ascii.eqb c " " || Ascii.eqb c "009" || Ascii.eqb c "010" || Ascii.eqb c "013".

Fixpoint skip_whitespace (s : string) : string :=
  match s with
  | String c rest => if is_whitespace c then skip_whitespace rest else s
  | EmptyString => ""
  end.

(** The characters up to the closing quote, and what follows it. *)
Fixpoint read_key (s : string) : option (string * string) :=
  match s with
  | EmptyString => None
  | String c rest =>
      if Ascii.eqb c quote then Some ("", rest)
      else if Ascii.eqb c "092" || (N_of_ascii c <? 32)%N then None
      else '(k, rest') ← read_key rest; Some (String c k, rest')
  end.

Fixpoint read_digits (s : string) : list N * string :=
  match s with
  | String c rest =>
      let n := N_of_ascii c in
      if ((48 <=? n) && (n <=? 57))%N
      then let '(ds, rest') := read_digits rest in ((n - 48)%N :: ds, rest')
      else ([], s)
  | EmptyString => ([], "")
  end.

Definition read_natural (s : string) : option (Z * string) :=
  match read_digits s with
  | ([], _) => None
  | (0%N :: _ :: _, _) => None
  | (ds, rest) => Some (foldl (λ acc d, 10 * acc + Z.of_N d)%Z 0%Z ds, rest)
  end.

Definition read_value (s : string) : option (JSON Z * string) :=
  match s with
  | String "n" (String "u" (String "l" (String "l" rest))) => Some (JNull, rest)
  | String "-" rest => '(n, rest') ← read_natural rest; Some (JNumber (- n)%Z, rest')
  | _ => '(n, rest') ← read_natural s; Some (JNumber n, rest')
  end.

Fixpoint read_members (fuel : nat) (s : string) (props : gmap string (JSON Z))
  : option (gmap string (JSON Z)) :=
  match fuel with
  | O => None
  | S fuel =>
      match skip_whitespace s with
      | String c rest =>
          if Ascii.eqb c quote then
            '(k, rest) ← read_key rest;
            match skip_whitespace rest with
            | String ":" rest =>
                '(v, rest) ← read_value (skip_whitespace rest);
                match skip_whitespace rest with
                | String "," rest => read_members fuel rest (<[k:=v]> props)
                | String "}" rest =>
                    match skip_whitespace rest with
                    | EmptyString => Some (<[k:=v]> props)
                    | _ => None
                    end
                | _ => None
                end
            | _ => None
            end
          else None
      | EmptyString => None
      end
  end.

Definition read_score_map (s : string) : option (JSON Z) :=
  match skip_whitespace s with
  | String "{" rest =>
      match skip_whitespace rest with
      | String "}" rest' =>
          match skip_whitespace rest' with
          | EmptyString => Some (JObject ∅)
          | _ => None
          end
      | _ => JObject <$> read_members (String.length s) rest ∅
      end
  | _ => None
  end.

(** The members every object inherits, as the language lists them for
    [Object.prototype]. *)
Definition object_methods : list string :=
  ["constructor"; "hasOwnProperty"; "isPrototypeOf"; "propertyIsEnumerable";
   "toLocaleString"; "toString"; "valueOf"; "__defineGetter__";
   "__defineSetter__"; "__lookupGetter__"; "__lookupSetter__"].

(** The name a method is printed under: [constructor] is the function
    the kind is named after. *)
Definition function_name (kind : Kind) (member : string) : string :=
  if String.eqb member "constructor" then
    match kind with
    | KObject => "Object"
    | KArray => "Array"
    | KString => "String"
    | KNumber => "Number"
    | KBoolean => "Boolean"
    end
  else member.

(** Under "__proto__" a value answers its prototype, and the prototypes
    print as the empty values of their kinds do; a method prints as a
    native function. *)
Definition standard_inherited (kind : Kind) (k : string) : option string :=
  if String.eqb k "__proto__" then
    Some match kind with
         | KObject => "[object Object]"
         | KArray | KString => ""
         | KNumber => "0"
         | KBoolean => "false"
         end
  else if existsb (String.eqb k) object_methods
  then Some ("function " ++ function_name kind k ++ "() { [native code] }")
  else None.

(** Of the prototypes that of objects is listed, the only kind of value
    this reader answers; strings are taken as ASCII. *)
Definition integer_runtime : Runtime :=
  {| Number := Z; Number_toString := pretty; Number_of_nat := Z.of_nat;
     JSON_parse := read_score_map;
     String_units := λ s, (λ c, String c "") <$> list_ascii_of_string s;
     inherited := standard_inherited |}.

End ScoreDisplay.

(** ** Filter and redirect (the controller with the [key] and [value]
    values) *)

Module FilterRedirect.

(** *** [URLSearchParams]

    The list of name-value pairs of the URL standard, with its
    [application/x-www-form-urlencoded] parser and serializer.  Names and
    values are scalar value strings, held as their UTF-8 bytes: where
    bytes are read as text, by the parser and where a name or a value is
    handed in, what is not well-formed UTF-8 gives U+FFFD. *)

Abbreviation URLSearchParams := (list (string * string)).

(** [lo <= a <= hi] on a byte. *)
Definition in_range (lo hi : N) (a : ascii) : bool :=
  ((lo <=? N_of_ascii a) && (N_of_ascii a <=? hi))%N.

(** U+FFFD in UTF-8, ahead of a text. *)
Definition replacement (rest : string) : string :=
  String "239" (String "191" (String "189" rest)).

(** The bounds of the byte that follows a lead byte. *)
Definition second_from (a : ascii) : N :=
  if (N_of_ascii a =? 224)%N then 160%N
  else if (N_of_ascii a =? 240)%N then 144%N else 128%N.

Definition second_to (a : ascii) : N :=
  if (N_of_ascii a =? 237)%N then 159%N
  else if (N_of_ascii a =? 244)%N then 143%N else 191%N.

(** The UTF-8 decoder of the Encoding standard, without the byte order
    mark: a well-formed sequence stays, an ill-formed one gives U+FFFD and
    the byte that broke it is read again; what is left of a sequence at
    the end gives U+FFFD. *)
Fixpoint utf8_decode (s : string) : string :=
  match s with
  | EmptyString => ""
  | String a r1 =>
      if in_range 0 127 a then String a (utf8_decode r1)
      else if in_range 194 223 a then
        match r1 with
        | String b r2 =>
            if in_range 128 191 b then String a (String b (utf8_decode r2))
            else replacement (utf8_decode r1)
        | EmptyString => replacement ""
        end
      else if in_range 224 239 a then
        match r1 with
        | String b r2 =>
            if in_range (second_from a) (second_to a) b then
              match r2 with
              | String c r3 =>
                  if in_range 128 191 c
                  then String a (String b (String c (utf8_decode r3)))
                  else replacement (utf8_decode r2)
              | EmptyString => replacement ""
              end
            else replacement (utf8_decode r1)
        | EmptyString => replacement ""
        end
      else if in_range 240 244 a then
        match r1 with
        | String b r2 =>
            if in_range (second_from a) (second_to a) b then
              match r2 with
              | String c r3 =>
                  if in_range 128 191 c then
                    match r3 with
                    | String d r4 =>
                        if in_range 128 191 d
                        then String a (String b (String c (String d (utf8_decode r4))))
                        else replacement (utf8_decode r3)
                    | EmptyString => replacement ""
                    end
                  else replacement (utf8_decode r2)
              | EmptyString => replacement ""
              end
            else replacement (utf8_decode r1)
        | EmptyString => replacement ""
        end
      else replacement (utf8_decode r1)
  end.

Definition is_alphanumeric (c : ascii) : bool :=
  let n := N_of_ascii c in
  ((48 <=? n) && (n <=? 57) || (65 <=? n) && (n <=? 90)
   || (97 <=? n) && (n <=? 122))%N.

(** The bytes the serializer writes as they are: alphanumerics and
    [*], [-], [.], [_]. *)
Definition is_unreserved (c : ascii) : bool :=
  is_alphanumeric c
  || Ascii.eqb c "*" || Ascii.eqb c "-" || Ascii.eqb c "." || Ascii.eqb c "_".

Definition hex_digit (n : N) : ascii :=
  if (n <? 10)%N then ascii_of_N (48 + n) else ascii_of_N (55 + n).

Definition hex_value (c : ascii) : option N :=
  let n := N_of_ascii c in
  if ((48 <=? n) && (n <=? 57))%N then Some (n - 48)%N
  else if ((65 <=? n) && (n <=? 70))%N then Some (n - 55)%N
  else if ((97 <=? n) && (n <=? 102))%N then Some (n - 87)%N
  else None.

Definition encode_byte (c : ascii) : string :=
  if Ascii.eqb c " " then "+"
  else if is_unreserved c then String c ""
  else let n := N_of_ascii c in
       String "%" (String (hex_digit (n / 16)) (String (hex_digit (n mod 16)) "")).

Fixpoint encode (s : string) : string :=
  match s with
  | EmptyString => ""
  | String c rest => encode_byte c ++ encode rest
  end.

(** [params.toString()] *)
Definition serialize (params : URLSearchParams) : string :=
  Js.join "&" (map (λ p, encode p.1 ++ "=" ++ encode p.2) params).

Fixpoint plus_to_space (s : string) : string :=
  match s with
  | EmptyString => ""
  | String c rest =>
      String (if Ascii.eqb c "+" then " "%char else c) (plus_to_space rest)
  end.

Fixpoint percent_decode (s : string) : string :=
  match s with
  | EmptyString => ""
  | String c rest =>
      if Ascii.eqb c "%" then
        match rest with
        | String a (String b rest') =>
            match hex_value a, hex_value b with
            | Some h, Some l =>
                String (ascii_of_N (16 * h + l)) (percent_decode rest')
            | _, _ => String c (percent_decode rest)
            end
        | _ => String c (percent_decode rest)
        end
      else String c (percent_decode rest)
  end.

(** A sequence is cut at its first [=]; without one the value is empty. *)
Fixpoint cut_at_equals (s : string) : string * string :=
  match s with
  | EmptyString => ("", "")
  | String c rest =>
      if Ascii.eqb c "=" then ("", rest)
      else let '(n, v) := cut_at_equals rest in (String c n, v)
  end.

(** Name and value are percent-decoded, and the bytes read as UTF-8. *)
Definition parse_pair (sequence : string) : string * string :=
  let '(n, v) := cut_at_equals sequence in
  (utf8_decode (percent_decode (plus_to_space n)),
   utf8_decode (percent_decode (plus_to_space v))).

Definition nonempty (s : string) : bool :=
  match s with EmptyString => false | String _ _ => true end.

(** [new URLSearchParams(init)] for a string: one leading [?] is dropped,
    the rest is cut at every [&], and empty sequences are skipped. *)
Definition parse (init : string) : URLSearchParams :=
  let query := match init with
               | String "?" rest => rest
               | _ => init
               end in
  map parse_pair (List.filter nonempty (Js.split "&" query)).

(** The list without the pairs of a name. *)
Definition delete_pairs (name : string) (params : URLSearchParams) : URLSearchParams :=
  List.filter (λ p, negb (String.eqb p.1 name)) params.

(** The first pair of the name takes the value and the others go; without
    such a pair one is appended. *)
Fixpoint set_pair (name value : string) (params : URLSearchParams) : URLSearchParams :=
  match params with
  | [] => [(name, value)]
  | p :: rest =>
      if String.eqb p.1 name then (name, value) :: delete_pairs name rest
      else p :: set_pair name value rest
  end.

(** [params.delete(name)].  The name is a scalar value string
    ([USVString]): it is read as text, which changes nothing in bytes
    that are well-formed UTF-8, as those of every text are. *)
Definition delete (name : string) (params : URLSearchParams) : URLSearchParams :=
  delete_pairs (utf8_decode name) params.

(** [params.set(name, value)], name and value scalar value strings as
    in [delete]. *)
Definition set (name value : string) (params : URLSearchParams) : URLSearchParams :=
  set_pair (utf8_decode name) (utf8_decode value) params.

(** A pair of texts: reading its name and its value as text changes
    nothing. *)
Definition scalar (p : string * string) : Prop :=
  utf8_decode p.1 = p.1 ∧ utf8_decode p.2 = p.2.

(** *** The controller *)

Record Controller : Type := { keyValue : string; valueValue : string }.

Record World : Type := {
  location_search : string;
  this : Controller;
  document : list CustomEvent;
}.

Definition dispatchEvent (e : CustomEvent) : Js.M World unit :=
  Js.modify (λ w, {| location_search := location_search w; this := this w;
                     document := document w ++ [e] |}).

Definition filter : Js.M World unit :=
  search ← Js.gets location_search;
  key ← Js.gets (λ w, keyValue (this w));
  value ← Js.gets (λ w, valueValue (this w));
  let params := parse search in
  let params := if negb (String.eqb value "all")
                then set key value params
                else delete key params in
  dispatchEvent (doSafeScoreRedirect ("?" ++ serialize params)).

End FilterRedirect.

(** ** Status banner ([status_show_controller.ts]) *)

Module StatusShow.

(** The markup language of the page is taken as given: [parseFragment]
    is the HTML fragment parsing algorithm with the banner's element as
    the context, which gives the nodes a text stands for, and
    [serializeFragment] the fragment serializing algorithm, which writes
    nodes as markup. *)
Record Runtime : Type := {
  Nodes : Type;
  parseFragment : string → Nodes;
  serializeFragment : Nodes → string;
}.

Section Controller.

Context (rt : Runtime).

(** The element the controller is mounted on, with its children. *)
Record Element : Type := { children : Nodes rt }.

(** Reading [element.innerHTML] serializes the children. *)
Definition innerHTML (el : Element) : string :=
  serializeFragment rt (children el).

(** [element.innerHTML = html]: the children are replaced by the nodes
    the text parses to. *)
Definition set_innerHTML (html : string) : Js.M Element unit :=
  Js.modify (λ _, {| children := parseFragment rt html |}).

(** The banner on the page: its element, and how many "updateStatus"
    listeners [connect] has put on the document for it. *)
Record Banner : Type := { element : Element; listeners : nat }.

(** The listener: [this.element.innerHTML = e.detail.status]. *)
Definition onUpdateStatus (status : string) : Js.M Element unit :=
  set_innerHTML status.

Definition connect (b : Banner) : Banner :=
  {| element := element b; listeners := S (listeners b) |}.

(** One event of the document reaches the banner: "updateStatus" runs
    each of its listeners, any other event none. *)
Definition deliver (b : Banner) (e : CustomEvent) : Banner :=
  match e with
  | updateStatus status =>
      {| element := Nat.iter (listeners b)
                      (λ el, (onUpdateStatus status el).2) (element b);
         listeners := listeners b |}
  | _ => b
  end.

Definition deliver_all (events : list CustomEvent) (b : Banner) : Banner :=
  foldl deliver b events.

End Controller.

Arguments children {rt} _.
Arguments element {rt} _.
Arguments listeners {rt} _.

(** *** A runtime to run the examples on

    The element holds ordinary content (a [div], a [p], a [span]) and
    the fragments are plain: no [<], no [&], no carriage return and no
    null character.  Such a fragment parses to one text node, to none
    when it is empty, and a text node is written with [&], [<], [>] and
    the no-break space as character references. *)

Inductive Node : Type :=
| Text (data : string).

Fixpoint escape (data : string) : string :=
  match data with
  | EmptyString => ""
  | String a rest =>
      if Ascii.eqb a "&" then "&amp;" ++ escape rest
      else if Ascii.eqb a "<" then "&lt;" ++ escape rest
      else if Ascii.eqb a ">" then "&gt;" ++ escape rest
      else match rest with
           | String b rest' =>
               if Ascii.eqb a "194" && Ascii.eqb b "160"
               then "&nbsp;" ++ escape rest'
               else String a (escape rest)
           | EmptyString => String a ""
           end
  end.

Definition plain_runtime : Runtime :=
  {| Nodes := list Node;
     parseFragment := λ html,
       match html with EmptyString => [] | _ => [Text html] end;
     serializeFragment := λ nodes,
       foldr (λ n rest, match n with Text data => escape data ++ rest end)
         "" nodes |}.

End StatusShow.

(** ** Trimming ([String.prototype.trim])

    White space and line terminators of the language, on text held as its
    UTF-8 bytes: the ASCII ones, U+00A0, U+1680, U+2000 to U+200A, U+2028,
    U+2029, U+202F, U+205F, U+3000 and U+FEFF. *)

Module Text.

Definition quote : string := String "034" "".

Definition newline : string := String "010" "".

Definition ascii_space (a : ascii) : bool :=
  let n := N_of_ascii a in
  ((9 <=? n) && (n <=? 13) || (n =? 32))%N.

Definition two_byte_space (a b : ascii) : bool :=
  ((N_of_ascii a =? 194) && (N_of_ascii b =? 160))%N.

Definition three_byte_space (a b c : ascii) : bool :=
  let x := N_of_ascii a in
  let y := N_of_ascii b in
  let z := N_of_ascii c in
  ((x =? 225) && (y =? 154) && (z =? 128)
   || (x =? 226) && (y =? 128)
      && ((128 <=? z) && (z <=? 138) || (z =? 168) || (z =? 169) || (z =? 175))
   || (x =? 226) && (y =? 129) && (z =? 159)
   || (x =? 227) && (y =? 128) && (z =? 128)
   || (x =? 239) && (y =? 187) && (z =? 191))%N.

(** Drop the white space a text starts with, for given tests of one, two
    and three bytes. *)
Fixpoint strip (sp1 : ascii → bool) (sp2 : ascii → ascii → bool)
    (sp3 : ascii → ascii → ascii → bool) (s : string) : string :=
  match s with
  | EmptyString => ""
  | String a r1 =>
      if sp1 a then strip sp1 sp2 sp3 r1
      else match r1 with
           | String b r2 =>
               if sp2 a b then strip sp1 sp2 sp3 r2
               else match r2 with
                    | String c r3 =>
                        if sp3 a b c then strip sp1 sp2 sp3 r3 else s
                    | EmptyString => s
                    end
           | EmptyString => s
           end
  end.

Fixpoint reverse_onto (acc s : string) : string :=
  match s with
  | EmptyString => acc
  | String a rest => reverse_onto (String a acc) rest
  end.

Definition reverse (s : string) : string := reverse_onto "" s.

Definition trimStart (s : string) : string :=
  strip ascii_space two_byte_space three_byte_space s.

(** From the end the bytes of a character come in reverse. *)
Definition trimEnd (s : string) : string :=
  reverse (strip ascii_space (λ b a, two_byte_space a b)
             (λ c b a, three_byte_space a b c) (reverse s)).

Definition trim (s : string) : string := trimEnd (trimStart s).

End Text.

(** ** SQLite console (the first controller of [sqlite_controller.ts]) *)

Module SqliteConsole.

(** A child of the history element: markup that was rendered into it, or
    an element made by [addToHistory], known by its identity. *)
Inductive Node : Type :=
| Rendered (html : string)
| Element (id : nat) (className textContent : string).

(** The input target: its [value], and whether [focus()] was called on it. *)
Record Input : Type := { value : string; focused : bool }.

(** The controller and its targets.  Of the terminal the number of times
    [scrollTop] was set to [scrollHeight] is kept; [created] counts the
    elements [document.createElement] has made, which tells them apart. *)
Record Console : Type := {
  terminalTarget : option nat;
  historyTarget : option (list Node);
  inputTarget : option Input;
  commandHistory : list string;
  created : nat;
}.

(** [interface SqliteResult] *)
Record SqliteResult : Type := {
  success : bool;
  output : string;
  error : option string;
}.

(** The request [fetch] is called with; [query] is the member of the
    object handed to [JSON.stringify]. *)
Record Request : Type := {
  url : string;
  method : string;
  content_type : string;
  query : string;
}.

(** How the two promises [executeCommand] awaits can settle. *)
Inductive FetchOutcome : Type :=
| FetchRejected (message : string)
| Responded (ok : bool).

Inductive JsonOutcome : Type :=
| JsonRejected (message : string)
| JsonResolved (result : SqliteResult).

Definition welcome_message : string :=
  let quote := Text.quote in
  let newline := Text.newline in
  newline ++ "            <div class=" ++ quote ++ "welcome-message" ++ quote ++ ">" ++ newline ++
  "                <p>SQLite Command Line Interface</p>" ++ newline ++
  "                <p>Type your SQL commands below. Examples:</p>" ++ newline ++
  "                <p class=" ++ quote ++ "example-cmd" ++ quote ++ ">.tables</p>" ++ newline ++
  "                <p class=" ++ quote ++ "example-cmd" ++ quote ++ ">.schema table_name</p>" ++ newline ++
  "                <p class=" ++ quote ++ "example-cmd" ++ quote ++ ">SELECT * FROM users LIMIT 10;</p>" ++ newline ++
  "            </div>" ++ newline ++
  "        ".

Definition set_terminalTarget (t : nat) (c : Console) : Console :=
  {| terminalTarget := Some t; historyTarget := historyTarget c;
     inputTarget := inputTarget c; commandHistory := commandHistory c;
     created := created c |}.

Definition set_historyTarget (h : list Node) (c : Console) : Console :=
  {| terminalTarget := terminalTarget c; historyTarget := Some h;
     inputTarget := inputTarget c; commandHistory := commandHistory c;
     created := created c |}.

Definition set_inputTarget (i : Input) (c : Console) : Console :=
  {| terminalTarget := terminalTarget c; historyTarget := historyTarget c;
     inputTarget := Some i; commandHistory := commandHistory c;
     created := created c |}.

Definition set_commandHistory (l : list string) (c : Console) : Console :=
  {| terminalTarget := terminalTarget c; historyTarget := historyTarget c;
     inputTarget := inputTarget c; commandHistory := l;
     created := created c |}.

Definition set_created (n : nat) (c : Console) : Console :=
  {| terminalTarget := terminalTarget c; historyTarget := historyTarget c;
     inputTarget := inputTarget c; commandHistory := commandHistory c;
     created := n |}.

Definition get_terminalTarget : Js.M Console nat :=
  λ c, match terminalTarget c with
       | Some t => Js.ret t c
       | None => Js.throw (Js.MissingTarget "terminal") c
       end.

Definition get_historyTarget : Js.M Console (list Node) :=
  λ c, match historyTarget c with
       | Some h => Js.ret h c
       | None => Js.throw (Js.MissingTarget "history") c
       end.

Definition get_inputTarget : Js.M Console Input :=
  λ c, match inputTarget c with
       | Some i => Js.ret i c
       | None => Js.throw (Js.MissingTarget "input") c
       end.

(** [this.inputTarget.focus()] *)
Definition focus : Js.M Console unit :=
  i ← get_inputTarget;
  Js.modify (set_inputTarget {| value := value i; focused := true |}).

Definition connect : Js.M Console unit := focus.

Definition scrollToBottom : Js.M Console unit :=
  t ← get_terminalTarget;
  Js.modify (set_terminalTarget (S t)).

(** The element is made before the history target is asked for; the
    identity of the new element is returned. *)
Definition addToHistory (content className : string) : Js.M Console nat :=
  element ← Js.gets created;
  Js.modify (set_created (S element));;
  h ← get_historyTarget;
  Js.modify (set_historyTarget (h ++ [Element element className content]));;
  scrollToBottom;;
  mret element.

Definition is_element (id : nat) (n : Node) : bool :=
  match n with
  | Element id' _ _ => Nat.eqb id' id
  | Rendered _ => false
  end.

(** [element.remove()]: the element leaves the history when it is in it. *)
Definition remove (element : nat) : Js.M Console unit :=
  Js.modify (λ c, match historyTarget c with
                  | Some h =>
                      set_historyTarget
                        (List.filter (λ n, negb (is_element element n)) h) c
                  | None => c
                  end).

Definition clear : Js.M Console unit :=
  _ ← get_historyTarget;
  Js.modify (set_historyTarget [Rendered welcome_message]);;
  Js.modify (set_commandHistory []);;
  focus.

Definition nonempty (s : string) : bool :=
  match s with EmptyString => false | String _ _ => true end.

Section Runtime.

(** [(error as Error).message] for what the runtime throws. *)
Variable message_of : Js.Error → string.

(** [executeCommand] up to its first [await]: [None] when the command is
    blank, else the request sent and the loading element. *)
Definition executeCommand : Js.M Console (option (Request * nat)) :=
  input ← get_inputTarget;
  let command := Text.trim (value input) in
  if nonempty command then
    addToHistory ("sqlite> " ++ command) "user-command";;
    loadingElement ← addToHistory "Executing..." "loading";
    input ← get_inputTarget;
    Js.modify (set_inputTarget {| value := ""; focused := focused input |});;
    Js.modify (λ c, set_commandHistory (commandHistory c ++ [command]) c);;
    mret (Some ({| url := "/admin/sqlite/execute"; method := "POST";
                   content_type := "application/json"; query := command |},
                loadingElement))
  else mret None.

(** The [catch] block. *)
Definition on_error (loadingElement : nat) (message : string)
  : Js.M Console unit :=
  remove loadingElement;;
  addToHistory ("Error: " ++ message) "command-error";;
  mret tt.

(** From the settling of [fetch] to the next [await] or to the end:
    [Some] when the function now awaits [response.json()]. *)
Definition fetch_settled (loadingElement : nat) (outcome : FetchOutcome)
  : Js.M Console (option nat) :=
  awaiting ←
    match outcome with
    | FetchRejected message => on_error loadingElement message;; mret None
    | Responded ok =>
        Js.try_catch
          (remove loadingElement;;
           if ok then mret (Some loadingElement)
           else
             remove loadingElement;;
             addToHistory "Error: Failed to execute command" "command-error";;
             mret None)
          (λ e, on_error loadingElement (message_of e);; mret None)
    end;
  match awaiting with
  | Some _ => mret awaiting
  | None => scrollToBottom;; mret None
  end.

(** From the settling of [response.json()] to the end. *)
Definition json_settled (loadingElement : nat) (outcome : JsonOutcome)
  : Js.M Console unit :=
  match outcome with
  | JsonRejected message => on_error loadingElement message
  | JsonResolved result =>
      Js.try_catch
        (if success result then
           if nonempty (Text.trim (output result)) then
             addToHistory (output result) "command-output";; mret tt
           else
             addToHistory "Query executed successfully." "command-output";;
             mret tt
         else
           let errorMsg := match error result with
                           | Some (String a rest) => String a rest
                           | _ => "Unknown error occurred"
                           end in
           addToHistory ("Error: " ++ errorMsg) "command-error";; mret tt)
        (λ e, on_error loadingElement (message_of e))
  end;;
  scrollToBottom.

(** *** The console over time

    A call of [executeCommand] that is suspended at an [await] is known by
    its loading element.  Between the steps of one call the user may type,
    run other commands or clear the console. *)

Record Session : Type := {
  console : Console;
  sent : list Request;
  awaiting_fetch : list nat;
  awaiting_json : list nat;
}.

Inductive Action : Type :=
| Types (text : string)
| Executes
| FetchSettles (loadingElement : nat) (outcome : FetchOutcome)
| JsonSettles (loadingElement : nat) (outcome : JsonOutcome)
| Clears.

Definition without (element : nat) (l : list nat) : list nat :=
  List.filter (λ e, negb (Nat.eqb e element)) l.

Definition step (s : Session) (a : Action) : Session :=
  match a with
  | Types text =>
      {| console := match inputTarget (console s) with
                    | Some i => set_inputTarget
                                  {| value := text; focused := focused i |}
                                  (console s)
                    | None => console s
                    end;
         sent := sent s; awaiting_fetch := awaiting_fetch s;
         awaiting_json := awaiting_json s |}
  | Executes =>
      match executeCommand (console s) with
      | (Js.Normal (Some (request, loadingElement)), c) =>
          {| console := c; sent := sent s ++ [request];
             awaiting_fetch := awaiting_fetch s ++ [loadingElement];
             awaiting_json := awaiting_json s |}
      | (_, c) =>
          {| console := c; sent := sent s; awaiting_fetch := awaiting_fetch s;
             awaiting_json := awaiting_json s |}
      end
  | FetchSettles loadingElement outcome =>
      if existsb (Nat.eqb loadingElement) (awaiting_fetch s) then
        match fetch_settled loadingElement outcome (console s) with
        | (Js.Normal (Some _), c) =>
            {| console := c; sent := sent s;
               awaiting_fetch := without loadingElement (awaiting_fetch s);
               awaiting_json := awaiting_json s ++ [loadingElement] |}
        | (_, c) =>
            {| console := c; sent := sent s;
               awaiting_fetch := without loadingElement (awaiting_fetch s);
               awaiting_json := awaiting_json s |}
        end
      else s
  | JsonSettles loadingElement outcome =>
      if existsb (Nat.eqb loadingElement) (awaiting_json s) then
        {| console := (json_settled loadingElement outcome (console s)).2;
           sent := sent s; awaiting_fetch := awaiting_fetch s;
           awaiting_json := without loadingElement (awaiting_json s) |}
      else s
  | Clears =>
      {| console := (clear (console s)).2; sent := sent s;
         awaiting_fetch := awaiting_fetch s; awaiting_json := awaiting_json s |}
  end.

Definition run (actions : list Action) (s : Session) : Session :=
  foldl step s actions.

End Runtime.

(** The children of the history element, none without the target. *)
Definition shown (c : Console) : list Node := default [] (historyTarget c).

(** The loading indicators in the history, by their identities. *)
Definition is_loading (n : Node) : option nat :=
  match n with
  | Element id className _ =>
      if String.eqb className "loading" then Some id else None
  | Rendered _ => None
  end.

Definition loading_elements (c : Console) : list nat :=
  omap is_loading (shown c).

(** The elements of the history are among those made so far. *)
Definition numbered (c : Console) : Prop :=
  ∀ id className text, Element id className text ∈ shown c → id < created c.

(** A console as the page brings it up: nothing awaited, nothing sent. *)
Definition opened (c : Console) : Session :=
  {| console := c; sent := []; awaiting_fetch := []; awaiting_json := [] |}.

End SqliteConsole.

(** ** Log viewer ([console_controller.ts]) *)

Module LogConsole.

Record Checkbox : Type := { checked : bool }.

(** The controller with its targets, and what it touches of the window
    and the document.  Of the output the number of times [scrollTop] was
    set to [scrollHeight] is kept.  [intervals] are the interval timers of
    the controller that are set: [setInterval] hands out the ids 1, 2, ...
    Functions made by [bind] are told apart by the order of their making;
    [listeners] are the "visibilitychange" listeners on the document.
    [reloads] counts the calls of [window.location.reload()], [alerts]
    lists what [alert] was called with, [clears_awaited] counts the calls
    of [clear] that are suspended at their [await]. *)
Record Page : Type := {
  outputTarget : option nat;
  autoScrollTarget : option Checkbox;
  refreshInterval : option nat;
  intervals : list nat;
  intervals_made : nat;
  listeners : list nat;
  functions_made : nat;
  hidden : bool;
  reloads : nat;
  alerts : list string;
  clears_awaited : nat;
}.

Definition set_outputTarget (n : nat) (p : Page) : Page :=
  {| outputTarget := Some n; autoScrollTarget := autoScrollTarget p;
     refreshInterval := refreshInterval p; intervals := intervals p;
     intervals_made := intervals_made p; listeners := listeners p;
     functions_made := functions_made p; hidden := hidden p;
     reloads := reloads p; alerts := alerts p;
     clears_awaited := clears_awaited p |}.

Definition set_autoScrollTarget (box : Checkbox) (p : Page) : Page :=
  {| outputTarget := outputTarget p; autoScrollTarget := Some box;
     refreshInterval := refreshInterval p; intervals := intervals p;
     intervals_made := intervals_made p; listeners := listeners p;
     functions_made := functions_made p; hidden := hidden p;
     reloads := reloads p; alerts := alerts p;
     clears_awaited := clears_awaited p |}.

Definition set_timers (current : option nat) (set : list nat) (made : nat) (p : Page) : Page :=
  {| outputTarget := outputTarget p;
     autoScrollTarget := autoScrollTarget p; refreshInterval := current;
     intervals := set; intervals_made := made; listeners := listeners p;
     functions_made := functions_made p; hidden := hidden p;
     reloads := reloads p; alerts := alerts p;
     clears_awaited := clears_awaited p |}.

Definition set_listeners (l : list nat) (made : nat) (p : Page) : Page :=
  {| outputTarget := outputTarget p;
     autoScrollTarget := autoScrollTarget p;
     refreshInterval := refreshInterval p; intervals := intervals p;
     intervals_made := intervals_made p; listeners := l;
     functions_made := made; hidden := hidden p; reloads := reloads p;
     alerts := alerts p; clears_awaited := clears_awaited p |}.

Definition set_hidden (h : bool) (p : Page) : Page :=
  {| outputTarget := outputTarget p;
     autoScrollTarget := autoScrollTarget p;
     refreshInterval := refreshInterval p; intervals := intervals p;
     intervals_made := intervals_made p; listeners := listeners p;
     functions_made := functions_made p; hidden := h;
     reloads := reloads p; alerts := alerts p;
     clears_awaited := clears_awaited p |}.

Definition set_reloads (n : nat) (p : Page) : Page :=
  {| outputTarget := outputTarget p;
     autoScrollTarget := autoScrollTarget p;
     refreshInterval := refreshInterval p; intervals := intervals p;
     intervals_made := intervals_made p; listeners := listeners p;
     functions_made := functions_made p; hidden := hidden p;
     reloads := n; alerts := alerts p;
     clears_awaited := clears_awaited p |}.

Definition set_alerts (l : list string) (p : Page) : Page :=
  {| outputTarget := outputTarget p;
     autoScrollTarget := autoScrollTarget p;
     refreshInterval := refreshInterval p; intervals := intervals p;
     intervals_made := intervals_made p; listeners := listeners p;
     functions_made := functions_made p; hidden := hidden p;
     reloads := reloads p; alerts := l;
     clears_awaited := clears_awaited p |}.

Definition set_clears_awaited (n : nat) (p : Page) : Page :=
  {| outputTarget := outputTarget p;
     autoScrollTarget := autoScrollTarget p;
     refreshInterval := refreshInterval p; intervals := intervals p;
     intervals_made := intervals_made p; listeners := listeners p;
     functions_made := functions_made p; hidden := hidden p;
     reloads := reloads p; alerts := alerts p; clears_awaited := n |}.

Definition get_outputTarget : Js.M Page nat :=
  λ p, match outputTarget p with
       | Some n => Js.ret n p
       | None => Js.throw (Js.MissingTarget "output") p
       end.

Definition get_autoScrollTarget : Js.M Page Checkbox :=
  λ p, match autoScrollTarget p with
       | Some b => Js.ret b p
       | None => Js.throw (Js.MissingTarget "autoScroll") p
       end.

Definition hasAutoScrollTarget (p : Page) : bool :=
  match autoScrollTarget p with Some _ => true | None => false end.

Definition refresh : Js.M Page unit :=
  Js.modify (λ p, set_reloads (S (reloads p)) p).

Definition autoScrollToBottom : Js.M Page unit :=
  has ← Js.gets hasAutoScrollTarget;
  if has : bool then
    box ← get_autoScrollTarget;
    if checked box then
      n ← get_outputTarget;
      Js.modify (set_outputTarget (S n))
    else mret tt
  else mret tt.

Definition toggleAutoScroll : Js.M Page unit :=
  box ← get_autoScrollTarget;
  if checked box then autoScrollToBottom else mret tt.

(** [window.setInterval(callback, 30000)]: the timer is set and its id
    kept, whatever [refreshInterval] held. *)
Definition startAutoRefresh : Js.M Page unit :=
  Js.modify (λ p, let id := S (intervals_made p) in
                  set_timers (Some id) (intervals p ++ [id]) id p).

(** An id is truthy when it is not 0. *)
Definition stopAutoRefresh : Js.M Page unit :=
  Js.modify (λ p, match refreshInterval p with
                  | Some (S id) =>
                      set_timers None
                        (List.filter (λ t, negb (Nat.eqb t (S id))) (intervals p))
                        (intervals_made p) p
                  | _ => p
                  end).

Definition handleVisibilityChange : Js.M Page unit :=
  h ← Js.gets hidden;
  if h : bool then stopAutoRefresh else startAutoRefresh.

(** [this.handleVisibilityChange.bind(this)]: a function of its own. *)
Definition bind_handleVisibilityChange : Js.M Page nat :=
  f ← Js.gets (λ p, S (functions_made p));
  Js.modify (λ p, set_listeners (listeners p) f p);;
  mret f.

Definition connect : Js.M Page unit :=
  autoScrollToBottom;;
  startAutoRefresh;;
  f ← bind_handleVisibilityChange;
  Js.modify (λ p, set_listeners (listeners p ++ [f]) (functions_made p) p).

(** [removeEventListener] takes off the listener that is the function it
    is given. *)
Definition disconnect : Js.M Page unit :=
  stopAutoRefresh;;
  f ← bind_handleVisibilityChange;
  Js.modify (λ p, set_listeners
                    (List.filter (λ g, negb (Nat.eqb g f)) (listeners p))
                    (functions_made p) p).

(** The callback of the interval timers. *)
Definition on_interval : Js.M Page unit :=
  h ← Js.gets hidden;
  if h : bool then mret tt else refresh.

(** How the request of [clear] can settle. *)
Inductive FetchOutcome : Type :=
| FetchRejected (message : string)
| Responded (ok : bool).

(** [clear] up to its [await], given what the user answers to [confirm]:
    the request is sent when the answer is yes. *)
Definition clear (confirmed : bool) : Js.M Page unit :=
  if confirmed then Js.modify (λ p, set_clears_awaited (S (clears_awaited p)) p)
  else mret tt.

Definition alert (message : string) : Js.M Page unit :=
  Js.modify (λ p, set_alerts (alerts p ++ [message]) p).

(** [clear] from the settling of the request on. *)
Definition clear_settled (outcome : FetchOutcome) : Js.M Page unit :=
  match outcome with
  | Responded true => refresh
  | Responded false => alert "Failed to clear logs"
  | FetchRejected message => alert ("Error clearing logs: " ++ message)
  end.

(** What happens on the page.  The browser sends "visibilitychange" when
    the visibility of the document has changed; a timer that is set calls
    back; a listener that throws is reported and the others still run. *)
Inductive Action : Type :=
| Connect
| Disconnect
| VisibilityChange
| Interval (id : nat)
| Check (box : bool)
| ToggleAutoScroll
| Clear (confirmed : bool)
| ClearSettles (outcome : FetchOutcome).

Definition step (p : Page) (a : Action) : Page :=
  match a with
  | Connect => (connect p).2
  | Disconnect => (disconnect p).2
  | VisibilityChange =>
      foldl (λ p _, (handleVisibilityChange p).2)
        (set_hidden (negb (hidden p)) p) (listeners p)
  | Interval id =>
      if existsb (Nat.eqb id) (intervals p) then (on_interval p).2 else p
  | Check box =>
      match autoScrollTarget p with
      | Some _ => set_autoScrollTarget {| checked := box |} p
      | None => p
      end
  | ToggleAutoScroll => (toggleAutoScroll p).2
  | Clear confirmed => (clear confirmed p).2
  | ClearSettles outcome =>
      match clears_awaited p with
      | S n => (clear_settled outcome (set_clears_awaited n p)).2
      | O => p
      end
  end.

Definition run (actions : list Action) (p : Page) : Page :=
  foldl step p actions.

(** A page on which the controller has made neither timer nor listener. *)
Definition loaded (output : option nat) (box : option Checkbox)
    (is_hidden : bool) : Page :=
  {| outputTarget := output; autoScrollTarget := box;
     refreshInterval := None; intervals := []; intervals_made := 0;
     listeners := []; functions_made := 0; hidden := is_hidden;
     reloads := 0; alerts := []; clears_awaited := 0 |}.

(** [connect] among the actions. *)
Definition is_connect (a : Action) : bool :=
  match a with Connect => true | _ => false end.

(** The listeners of a page are functions that were made. *)
Definition fresh (p : Page) : Prop :=
  Forall (λ f, (f ≤ functions_made p)%nat) (listeners p).

(** A timer that is set and that [refreshInterval] does not name. *)
Definition replaced (id : nat) (p : Page) : Prop :=
  id ∈ intervals p ∧ refreshInterval p ≠ Some id ∧ (id ≤ intervals_made p)%nat.

End LogConsole.

(** * Properties *)

(** ** Cutting a string at a separator *)

Module JsProps.

Lemma includes_app (c : ascii) (s1 s2 : string) :
  Js.includes c (s1 ++ s2) = Js.includes c s1 || Js.includes c s2.
Proof. induction s1 as [|a s1 IH]; simpl; [done|]. by rewrite IH, orb_assoc. Qed.

Lemma split_without_sep (sep : ascii) (s : string) :
  Js.includes sep s = false → Js.split sep s = [s].
Proof.
  induction s as [|a s IH]; simpl; [done|].
  intros [Ha Hs]%orb_false_iff. by rewrite Ha, IH.
Qed.

Lemma split_app_sep (sep : ascii) (s1 s2 : string) :
  Js.includes sep s1 = false →
  Js.split sep (s1 ++ String sep s2) = s1 :: Js.split sep s2.
Proof.
  induction s1 as [|a s1 IH]; simpl.
  - intros _. by rewrite Ascii.eqb_refl.
  - intros [Ha Hs]%orb_false_iff. by rewrite Ha, IH.
Qed.

(** A callback that never throws makes [forEach] a map. *)
Lemma forEach_total {E : Type} (callback : Js.M E unit) (f : E → E) :
  (∀ x, callback x = (Js.Normal tt, f x)) →
  ∀ targets, Js.forEach callback targets = (Js.Normal tt, f <$> targets).
Proof.
  intros Hcb targets. induction targets as [|x rest IH]; [done|].
  cbn [Js.forEach]. by rewrite Hcb, IH.
Qed.

(** Cutting undoes joining, when no segment holds the separator. *)
Lemma split_join (sep : ascii) (seg : string) (segs : list string) :
  Forall (λ s, Js.includes sep s = false) (seg :: segs) →
  Js.split sep (Js.join (String sep "") (seg :: segs)) = seg :: segs.
Proof.
  revert seg. induction segs as [|s segs IH]; intros seg Hall.
  - apply split_without_sep. by inversion Hall.
  - apply Forall_cons in Hall as [Hseg Hall].
    change (Js.join (String sep "") (seg :: s :: segs))
      with (seg ++ String sep (Js.join (String sep "") (s :: segs))).
    rewrite split_app_sep by done. by rewrite IH.
Qed.

End JsProps.

(** ** Score entry form *)

Module ScoreSetProps.
Import ScoreSet.

(** An id of four or more dash-separated segments is keyed by the fourth. *)
Lemma form_id_of_fourth_segment (a b c d : string) (more : list string) (v : string) :
  Forall (λ s, Js.includes "-" s = false) (a :: b :: c :: d :: more) →
  form_id_of {| field_id := Js.join "-" (a :: b :: c :: d :: more);
                field_value := v |} = Some d.
Proof.
  intros Hall. unfold form_id_of. cbn [field_id].
  by rewrite JsProps.split_join.
Qed.

(** An id of fewer segments has no fourth one. *)
Lemma form_id_of_short (segs : list string) (seg v : string) :
  Forall (λ s, Js.includes "-" s = false) (seg :: segs) →
  (List.length segs < 3)%nat →
  form_id_of {| field_id := Js.join "-" (seg :: segs); field_value := v |} = None.
Proof.
  intros Hall Hlen. unfold form_id_of. cbn [field_id].
  rewrite JsProps.split_join by done.
  apply lookup_ge_None. cbn [List.length]. lia.
Qed.

Lemma foldl_record_field_lookup (fields : list Field) :
  ∀ (obj : gmap string string) (k : string),
    k ≠ "__proto__" →
    foldl record_field obj fields !! k =
    match last (filter (λ val, Js.ToPropertyKey (form_id_of val) = k) fields) with
    | Some val => Some (field_value val)
    | None => obj !! k
    end.
Proof.
  induction fields as [|val fields IH]; intros obj k Hk; [done|].
  cbn [foldl]. rewrite IH by done. unfold record_field at 1. cbn zeta.
  destruct (decide (Js.ToPropertyKey (form_id_of val) = k)) as [Hval|Hval].
  - rewrite filter_cons_True by done. rewrite last_cons.
    destruct (last (filter _ fields)); [done|].
    rewrite decide_False by congruence.
    rewrite Hval. by rewrite lookup_insert_eq.
  - rewrite filter_cons_False by done.
    destruct (last (filter _ fields)); [done|].
    destruct (decide (_ = "__proto__")); [done|].
    by rewrite lookup_insert_ne.
Qed.

(** Nothing is ever filed under "__proto__". *)
Lemma foldl_record_field_proto (fields : list Field) :
  ∀ obj : gmap string string,
    foldl record_field obj fields !! "__proto__" = obj !! "__proto__".
Proof.
  induction fields as [|val fields IH]; intros obj; [done|].
  cbn [foldl]. rewrite IH. unfold record_field. cbn zeta.
  destruct (decide (_ = "__proto__")); [done|].
  by rewrite lookup_insert_ne.
Qed.

(** Each key but "__proto__" holds the value of the last field that
    spells it. *)
Lemma collect_scores_lookup (fields : list Field) (k : string) :
  k ≠ "__proto__" →
  collect_scores fields !! k =
  field_value <$> last (filter (λ val, Js.ToPropertyKey (form_id_of val) = k) fields).
Proof.
  intros Hk. unfold collect_scores. rewrite foldl_record_field_lookup by done.
  destruct (last _); [done|]. apply lookup_empty.
Qed.

Lemma collect_scores_proto (fields : list Field) :
  collect_scores fields !! "__proto__" = None.
Proof. unfold collect_scores. by rewrite foldl_record_field_proto. Qed.

Lemma submit_with_form (c : Controller) (form : FormTarget)
    (events : list CustomEvent) :
  formTarget c = Some form →
  submit {| this := c; document := events |} =
  (Js.Normal tt,
   {| this := match buttonTarget c with
              | Some _ =>
                  {| fieldTargets := fieldTargets c; formTarget := formTarget c;
                     buttonTarget := Some {| backgroundColor := "yellow" |};
                     statusValue := "pending" |}
              | None => c
              end;
      document := events ++
        [scoreUpdate (form_id form) (collect_scores (fieldTargets c))] |}).
Proof.
  intros Hform.
  unfold submit, mbind, M_bind, Js.bind, Js.gets, Js.zoom, get_formTarget.
  cbn. rewrite Hform. cbn. unfold hasButtonTarget.
  destruct (buttonTarget c) as [b|] eqn:Hb; cbn; [|done].
  unfold set_backgroundColor, get_buttonTarget, mbind, M_bind, Js.bind.
  cbn. rewrite Hb. unfold Js.modify, set_this, set_statusValue, set_buttonTarget.
  cbn. by rewrite Hform.
Qed.

(** Without a form target [this.formTarget] throws before anything is
    dispatched. *)
Lemma submit_without_form (c : Controller) (events : list CustomEvent) :
  formTarget c = None →
  submit {| this := c; document := events |} =
  (Js.Throw (Js.MissingTarget "form"), {| this := c; document := events |}).
Proof.
  intros Hform.
  unfold submit, mbind, M_bind, Js.bind, Js.gets, Js.zoom, get_formTarget.
  cbn. by rewrite Hform.
Qed.

Lemma listener_pending_button (c : Controller) (b : Button) :
  statusValue c = "pending" → buttonTarget c = Some b →
  onScoreUpdateSubmitted c =
  (Js.Normal tt,
   {| fieldTargets := fieldTargets c; formTarget := formTarget c;
      buttonTarget := Some {| backgroundColor := "green" |};
      statusValue := "completed" |}).
Proof.
  intros Hs Hb. unfold onScoreUpdateSubmitted, mbind, M_bind, Js.bind, Js.gets.
  rewrite decide_True by done.
  unfold set_backgroundColor, get_buttonTarget, mbind, M_bind, Js.bind.
  by rewrite Hb.
Qed.

Lemma listener_pending_no_button (c : Controller) :
  statusValue c = "pending" → buttonTarget c = None →
  onScoreUpdateSubmitted c = (Js.Throw (Js.MissingTarget "button"), c).
Proof.
  intros Hs Hb. unfold onScoreUpdateSubmitted, mbind, M_bind, Js.bind, Js.gets.
  rewrite decide_True by done.
  unfold set_backgroundColor, get_buttonTarget, mbind, M_bind, Js.bind.
  by rewrite Hb.
Qed.

Lemma listener_not_pending (c : Controller) :
  statusValue c ≠ "pending" → onScoreUpdateSubmitted c = (Js.Normal tt, c).
Proof.
  intros Hs. unfold onScoreUpdateSubmitted, mbind, M_bind, Js.bind, Js.gets.
  by rewrite decide_False.
Qed.

(** One signal either completes a pending form that has its button, or
    changes nothing. *)
Lemma after_signal_cases (c : Controller) :
  (statusValue c = "pending"
   ∧ after_signal c =
     {| fieldTargets := fieldTargets c; formTarget := formTarget c;
        buttonTarget := Some {| backgroundColor := "green" |};
        statusValue := "completed" |})
  ∨ after_signal c = c.
Proof.
  unfold after_signal.
  destruct (decide (statusValue c = "pending")) as [Hs|Hs].
  - destruct (buttonTarget c) as [b|] eqn:Hb.
    + left. by rewrite (listener_pending_button c b).
    + right. by rewrite listener_pending_no_button.
  - right. by rewrite listener_not_pending.
Qed.

Lemma after_signal_idemp (c : Controller) :
  after_signal (after_signal c) = after_signal c.
Proof.
  destruct (after_signal_cases c) as [[_ ->]|H]; [|by rewrite !H].
  unfold after_signal. by rewrite listener_not_pending.
Qed.

Lemma run_listener_lookup (cs : list Controller) (i j : nat) :
  run_listener cs j !! i =
  if decide (i = j) then after_signal <$> cs !! i else cs !! i.
Proof.
  unfold run_listener. destruct (cs !! j) as [c|] eqn:Hj.
  - destruct (decide (i = j)) as [->|Hne].
    + rewrite list_lookup_insert_eq by (by eapply lookup_lt_Some). by rewrite Hj.
    + by rewrite list_lookup_insert_ne.
  - destruct (decide (i = j)) as [->|Hne]; [by rewrite Hj|done].
Qed.

(** After the listeners [ls] have run, exactly the controllers they close
    over have seen the signal, however often their listener ran. *)
Lemma foldl_run_listener_lookup (ls : list nat) :
  ∀ (cs : list Controller) (i : nat),
    foldl run_listener cs ls !! i =
    if decide (i ∈ ls) then after_signal <$> cs !! i else cs !! i.
Proof.
  induction ls as [|j ls IH]; intros cs i.
  - cbn. destruct (decide (i ∈ [])) as [H|H]; [by apply elem_of_nil in H|done].
  - cbn [foldl]. rewrite IH, run_listener_lookup.
    destruct (decide (i = j)) as [->|Hne].
    + rewrite (decide_True (P := j ∈ j :: ls)) by (apply elem_of_cons; by left).
      destruct (decide (j ∈ ls)); [|done].
      destruct (cs !! j); cbn; [|done]. by rewrite after_signal_idemp.
    + destruct (decide (i ∈ ls)) as [Hin|Hin].
      * by rewrite (decide_True (P := i ∈ j :: ls))
          by (apply elem_of_cons; by right).
      * rewrite (decide_False (P := i ∈ j :: ls)); [done|].
        intros [?|?]%elem_of_cons; done.
Qed.

Lemma mount_all_spec (cs : list Controller) :
  mount_all cs = {| controllers := cs; listeners := seq 0 (List.length cs) |}.
Proof.
  unfold mount_all.
  enough (∀ cs0 cs,
            foldl mount {| controllers := cs0;
                           listeners := seq 0 (List.length cs0) |} cs
            = {| controllers := cs0 ++ cs;
                 listeners := seq 0 (List.length (cs0 ++ cs)) |}) as H
    by apply (H []).
  clear cs. intros cs0 cs. revert cs0.
  induction cs as [|c cs IH]; intros cs0.
  - cbn. by rewrite app_nil_r.
  - cbn [foldl]. unfold mount at 2, connect. cbn.
    replace (seq 0 (List.length cs0) ++ [List.length cs0])%list
      with (seq 0 (List.length (cs0 ++ [c]))).
    + rewrite IH. by rewrite <- app_assoc.
    + rewrite length_app. cbn. by rewrite seq_app.
Qed.

(** Every mounted instance has its listener on the document. *)
Lemma mount_all_connected (cs : list Controller) (i : nat) :
  (i < List.length cs)%nat → i ∈ listeners (mount_all cs).
Proof.
  intros Hi. rewrite mount_all_spec. cbn. apply elem_of_seq. lia.
Qed.




(** A completion signal that finds the form pending, its button in
    place, turns the button green and the status to "completed"; one that
    finds the form completed changes nothing, however many follow; and no
    signal changes the status in any way but from "pending" to
    "completed". *)
Theorem completion_signal_only_moves_forward (c : Controller) :
  (∀ b : Button,
      statusValue c = "pending" → buttonTarget c = Some b →
      onScoreUpdateSubmitted c =
      (Js.Normal tt,
       {| fieldTargets := fieldTargets c; formTarget := formTarget c;
          buttonTarget := Some {| backgroundColor := "green" |};
          statusValue := "completed" |}))
  ∧ (statusValue c = "completed" →
     onScoreUpdateSubmitted c = (Js.Normal tt, c)
     ∧ ∀ n : nat, Nat.iter n after_signal c = c)
  ∧ (statusValue (after_signal c) = statusValue c
     ∨ statusValue c = "pending" ∧ statusValue (after_signal c) = "completed").
Proof.
  split; [|split].
  - intros b. apply listener_pending_button.
  - intros Hs.
    assert (Hnoop : onScoreUpdateSubmitted c = (Js.Normal tt, c)).
    { apply listener_not_pending. by rewrite Hs. }
    split; [done|]. intros n. induction n as [|n IH]; [done|].
    change (after_signal (Nat.iter n after_signal c) = c).
    rewrite IH. unfold after_signal. by rewrite Hnoop.
  - destruct (after_signal_cases c) as [[Hs ->]| ->]; [by right|by left].
Qed.

(** Scenario 4: a pending form, one signal, then a second one. *)
Lemma completion_signal_only_moves_forward_witness :
  let c := {| fieldTargets := []; formTarget := Some {| form_id := "event-7" |};
              buttonTarget := Some {| backgroundColor := "yellow" |};
              statusValue := "pending" |} in
  let c' := {| fieldTargets := []; formTarget := Some {| form_id := "event-7" |};
               buttonTarget := Some {| backgroundColor := "green" |};
               statusValue := "completed" |} in
  onScoreUpdateSubmitted c = (Js.Normal tt, c')
  ∧ onScoreUpdateSubmitted c' = (Js.Normal tt, c').
Proof.
  intros c c'. split.
  - exact (proj1 (completion_signal_only_moves_forward c)
             {| backgroundColor := "yellow" |} eq_refl eq_refl).
  - exact (proj1 (proj1 (proj2 (completion_signal_only_moves_forward c')) eq_refl)).
Defined.

(** The signal names no form: every connected instance that is pending,
    its button in place, is completed by one delivery. *)
Lemma deliver_completes_pending (p : Page) (i : nat) (c : Controller)
    (b : Button) :
  controllers p !! i = Some c → i ∈ listeners p →
  statusValue c = "pending" → buttonTarget c = Some b →
  controllers (deliver p scoreUpdateSubmitted) !! i =
  Some {| fieldTargets := fieldTargets c; formTarget := formTarget c;
          buttonTarget := Some {| backgroundColor := "green" |};
          statusValue := "completed" |}.
Proof.
  intros Hc Hi Hs Hb. cbn. rewrite foldl_run_listener_lookup.
  rewrite decide_True by done. rewrite Hc. cbn.
  unfold after_signal. by rewrite (listener_pending_button c b).
Qed.

Lemma submit_keeps_pending_with_button (c : Controller)
    (events : list CustomEvent) :
  pending_with_button c →
  pending_with_button (this (submit {| this := c; document := events |}).2).
Proof.
  unfold pending_with_button. intros Hinv.
  destruct (formTarget c) as [form|] eqn:Hform.
  - rewrite (submit_with_form c form events Hform).
    destruct (buttonTarget c) as [b|] eqn:Hb; cbn; [by eauto|].
    rewrite Hb. exact Hinv.
  - by rewrite (submit_without_form c events Hform).
Qed.

Lemma after_signal_keeps_pending_with_button (c : Controller) :
  pending_with_button c → pending_with_button (after_signal c).
Proof.
  unfold pending_with_button. intros Hinv.
  destruct (after_signal_cases c) as [[_ ->]| ->]; [done|exact Hinv].
Qed.

Lemma run_listener_keeps (cs : list Controller) (i : nat) :
  Forall pending_with_button cs → Forall pending_with_button (run_listener cs i).
Proof.
  intros Hall. unfold run_listener.
  destruct (cs !! i) as [c|] eqn:Hc; [|done].
  apply Forall_insert; [done|].
  apply after_signal_keeps_pending_with_button.
  by eapply Forall_lookup_1.
Qed.

(** What a step keeps: the listeners, the number of controllers, and
    that every form is pending only with its button. *)
Lemma step_keeps (st : Page * list CustomEvent) (a : Action) :
  listeners (step st a).1 = listeners st.1
  ∧ List.length (controllers (step st a).1) = List.length (controllers st.1)
  ∧ (Forall pending_with_button (controllers st.1) →
     Forall pending_with_button (controllers (step st a).1)).
Proof.
  destruct a as [i|e]; cbn [step].
  - unfold submit_at. destruct (controllers st.1 !! i) as [c|] eqn:Hc; [|done].
    cbn [fst controllers listeners]. split; [done|].
    split; [apply length_insert|].
    intros Hall. apply Forall_insert; [done|].
    apply submit_keeps_pending_with_button. by eapply Forall_lookup_1.
  - destruct e; try done. cbn [fst deliver controllers listeners].
    split; [done|].
    generalize (listeners st.1) as ls. generalize (controllers st.1) as cs.
    intros cs ls. revert cs. induction ls as [|j ls IH]; intros cs; [done|].
    cbn [foldl]. destruct (IH (run_listener cs j)) as [Hlen Hkeep]. split.
    + rewrite Hlen. unfold run_listener.
      destruct (cs !! j); [apply length_insert|done].
    + intros Hall. by apply Hkeep, run_listener_keeps.
Qed.

Lemma run_keeps (actions : list Action) :
  ∀ st : Page * list CustomEvent,
    listeners (run actions st).1 = listeners st.1
    ∧ List.length (controllers (run actions st).1) = List.length (controllers st.1)
    ∧ (Forall pending_with_button (controllers st.1) →
       Forall pending_with_button (controllers (run actions st).1)).
Proof.
  induction actions as [|a actions IH]; intros st; [done|].
  unfold run in *. cbn [foldl].
  destruct (IH (step st a)) as (Hls & Hlen & Hkeep).
  destruct (step_keeps st a) as (Hls' & Hlen' & Hkeep').
  split; [congruence|]. split; [congruence|]. auto.
Qed.

(** The signal names no form.  Take any forms, each rendered pending
    only with its status button, mount them, and let any submissions and
    events follow: one delivery of "scoreUpdateSubmitted" then completes
    every instance that is pending, and turns its button green. *)
Theorem completion_signal_reaches_every_pending_form (cs : list Controller)
    (actions : list Action) (i : nat) (c : Controller) :
  Forall pending_with_button cs →
  controllers (run actions (mount_all cs, [])).1 !! i = Some c →
  statusValue c = "pending" →
  controllers (deliver (run actions (mount_all cs, [])).1 scoreUpdateSubmitted) !! i =
  Some {| fieldTargets := fieldTargets c; formTarget := formTarget c;
          buttonTarget := Some {| backgroundColor := "green" |};
          statusValue := "completed" |}.
Proof.
  intros Hall Hc Hs. rewrite mount_all_spec in Hc |- *.
  destruct (run_keeps actions
              ({| controllers := cs; listeners := seq 0 (List.length cs) |}, []))
    as (Hls & Hlen & Hkeep).
  cbn [fst listeners controllers] in Hls, Hlen, Hkeep.
  destruct (Forall_lookup_1 _ _ _ _ (Hkeep Hall) Hc Hs) as [b Hb].
  apply (deliver_completes_pending _ i c b); [done| |done|done].
  rewrite Hls. apply elem_of_seq. apply lookup_lt_Some in Hc. lia.
Qed.

(** Two forms are mounted completed, both are submitted, and a single
    signal completes both. *)
Lemma completion_signal_reaches_every_pending_form_witness :
  let form (id color status : string) :=
    {| fieldTargets := [ {| field_id := "row-a-b-evt1"; field_value := "5" |} ];
       formTarget := Some {| form_id := id |};
       buttonTarget := Some {| backgroundColor := color |};
       statusValue := status |} in
  let cs := [form "event-7" "" "completed"; form "event-8" "" "completed"] in
  let p := (run [Submit 0; Submit 1] (mount_all cs, [])).1 in
  controllers p = [form "event-7" "yellow" "pending"; form "event-8" "yellow" "pending"]
  ∧ controllers (deliver p scoreUpdateSubmitted) !! 0%nat =
    Some (form "event-7" "green" "completed")
  ∧ controllers (deliver p scoreUpdateSubmitted) !! 1%nat =
    Some (form "event-8" "green" "completed").
Proof.
  intros form cs p.
  assert (Hcs : Forall pending_with_button cs).
  { repeat constructor; intros Hs; discriminate Hs. }
  split; [reflexivity|]. split.
  - exact (completion_signal_reaches_every_pending_form cs [Submit 0; Submit 1] 0
             (form "event-7" "yellow" "pending") Hcs eq_refl eq_refl).
  - exact (completion_signal_reaches_every_pending_form cs [Submit 0; Submit 1] 1
             (form "event-8" "yellow" "pending") Hcs eq_refl eq_refl).
Defined.

(** C2, on the code.  A form that is pending and has no status button
    is not completed by the signal, nor by any number of signals: the
    listener throws where it asks for the button, before it sets the
    status. *)
Theorem pending_form_without_button_stays_pending (c : Controller) (n : nat) :
  statusValue c = "pending" → buttonTarget c = None →
  Nat.iter n after_signal c = c
  ∧ statusValue (Nat.iter n after_signal c) = "pending".
Proof.
  intros Hs Hb.
  assert (Hiter : Nat.iter n after_signal c = c).
  { induction n as [|n IH]; [done|].
    change (after_signal (Nat.iter n after_signal c) = c).
    rewrite IH. unfold after_signal. by rewrite listener_pending_no_button. }
  by rewrite Hiter.
Qed.

(** A form rendered pending and without a button, and two signals. *)
Lemma pending_form_without_button_stays_pending_witness :
  let c := {| fieldTargets := []; formTarget := Some {| form_id := "event-7" |};
              buttonTarget := None; statusValue := "pending" |} in
  after_signal (after_signal c) = c
  ∧ statusValue (after_signal (after_signal c)) = "pending".
Proof.
  intros c.
  exact (pending_form_without_button_stays_pending c 2 eq_refl eq_refl).
Defined.

(** C3, on the code.  On any page, after any submissions and events, one
    delivery of "scoreUpdateSubmitted" leaves an instance that is pending
    and has no status button as it is, pending. *)
Theorem completion_signal_misses_form_without_button (cs : list Controller)
    (actions : list Action) (i : nat) (c : Controller) :
  controllers (run actions (mount_all cs, [])).1 !! i = Some c →
  statusValue c = "pending" → buttonTarget c = None →
  controllers (deliver (run actions (mount_all cs, [])).1 scoreUpdateSubmitted) !! i =
  Some c.
Proof.
  intros Hc Hs Hb. cbn [deliver controllers].
  rewrite foldl_run_listener_lookup, Hc. cbn [fmap option_fmap option_map].
  unfold after_signal. rewrite listener_pending_no_button by done.
  by destruct (decide _).
Qed.

(** Two forms are pending, the second without a button: a single signal
    completes the first and leaves the second pending. *)
Lemma completion_signal_misses_form_without_button_witness :
  let form (id : string) (button : option Button) (status : string) :=
    {| fieldTargets := [ {| field_id := "row-a-b-evt1"; field_value := "5" |} ];
       formTarget := Some {| form_id := id |};
       buttonTarget := button; statusValue := status |} in
  let cs := [form "event-7" (Some {| backgroundColor := "yellow" |}) "pending";
             form "event-8" None "pending"] in
  controllers (deliver (mount_all cs) scoreUpdateSubmitted) =
  [form "event-7" (Some {| backgroundColor := "green" |}) "completed";
   form "event-8" None "pending"]
  ∧ controllers (deliver (mount_all cs) scoreUpdateSubmitted) !! 1%nat =
    Some (form "event-8" None "pending").
Proof.
  intros form cs. split; [reflexivity|].
  exact (completion_signal_misses_form_without_button cs [] 1
           (form "event-8" None "pending") eq_refl eq_refl eq_refl).
Defined.

(** C8, on the code.  A form without its button still submits: the event
    goes out and the controller is left as it was.  The listener is not
    guarded the way [submit] is: when the status is "pending" it asks for
    the button and throws; it completes only when the status is anything
    else. *)
Theorem missing_button_completion_signal_throws (c : Controller)
    (form : FormTarget) (events : list CustomEvent) :
  buttonTarget c = None → formTarget c = Some form →
  submit {| this := c; document := events |} =
  (Js.Normal tt,
   {| this := c;
      document := events ++
        [scoreUpdate (form_id form) (collect_scores (fieldTargets c))] |})
  ∧ (statusValue c = "pending" →
     onScoreUpdateSubmitted c = (Js.Throw (Js.MissingTarget "button"), c))
  ∧ (statusValue c ≠ "pending" →
     onScoreUpdateSubmitted c = (Js.Normal tt, c)).
Proof.
  intros Hb Hform. split; [|split].
  - rewrite (submit_with_form c form events Hform). by rewrite Hb.
  - intros Hs. by apply listener_pending_no_button.
  - apply listener_not_pending.
Qed.

(** A form rendered pending and without a button: the signal throws and
    the form stays pending. *)
Lemma missing_button_completion_signal_throws_witness :
  let c := {| fieldTargets := []; formTarget := Some {| form_id := "event-7" |};
              buttonTarget := None; statusValue := "pending" |} in
  onScoreUpdateSubmitted c = (Js.Throw (Js.MissingTarget "button"), c)
  ∧ statusValue (after_signal c) = "pending".
Proof.
  intros c.
  destruct (missing_button_completion_signal_throws c {| form_id := "event-7" |} []
              eq_refl eq_refl) as (_ & Hthrow & _).
  split; [exact (Hthrow eq_refl)|]. unfold after_signal.
  rewrite (Hthrow eq_refl). reflexivity.
Defined.

(** [submit] is a reset: a form with its form target and its button ends
    pending, the button yellow, whatever its status was, completed
    included. *)
Theorem submit_resets_to_pending (c : Controller) (form : FormTarget)
    (b : Button) (events : list CustomEvent) :
  formTarget c = Some form → buttonTarget c = Some b →
  this (submit {| this := c; document := events |}).2 =
  {| fieldTargets := fieldTargets c; formTarget := formTarget c;
     buttonTarget := Some {| backgroundColor := "yellow" |};
     statusValue := "pending" |}.
Proof.
  intros Hform Hb. rewrite (submit_with_form c form events Hform).
  by rewrite Hb.
Qed.

Lemma submit_resets_to_pending_witness :
  let c := {| fieldTargets := []; formTarget := Some {| form_id := "event-7" |};
              buttonTarget := Some {| backgroundColor := "green" |};
              statusValue := "completed" |} in
  statusValue (this (submit {| this := c; document := [] |}).2) = "pending".
Proof.
  intros c.
  by rewrite (submit_resets_to_pending c {| form_id := "event-7" |}
                {| backgroundColor := "green" |} [] eq_refl eq_refl).
Defined.

(** Without a form target [submit] throws where it reads
    [this.formTarget.id]: no event goes out and nothing is changed. *)
Theorem submit_needs_form_target (c : Controller) (events : list CustomEvent) :
  formTarget c = None →
  submit {| this := c; document := events |} =
  (Js.Throw (Js.MissingTarget "form"), {| this := c; document := events |}).
Proof. apply submit_without_form. Qed.

Lemma submit_needs_form_target_witness :
  let c := {| fieldTargets := [ {| field_id := "row-a-b-evt1"; field_value := "5" |} ];
              formTarget := None;
              buttonTarget := Some {| backgroundColor := "" |};
              statusValue := "completed" |} in
  document (submit {| this := c; document := [] |}).2 = [].
Proof.
  intros c. by rewrite (submit_needs_form_target c [] eq_refl).
Defined.

(** A form that is pending only with its button in place stays so under
    [submit] and under the completion signal. *)
Theorem pending_only_with_button_preserved (c : Controller)
    (events : list CustomEvent) :
  pending_with_button c →
  pending_with_button (this (submit {| this := c; document := events |}).2)
  ∧ pending_with_button (after_signal c).
Proof.
  intros Hinv. split.
  - by apply submit_keeps_pending_with_button.
  - by apply after_signal_keeps_pending_with_button.
Qed.

Lemma pending_only_with_button_preserved_witness :
  let c := {| fieldTargets := []; formTarget := Some {| form_id := "event-7" |};
              buttonTarget := Some {| backgroundColor := "" |};
              statusValue := "completed" |} in
  is_Some (buttonTarget (this (submit {| this := c; document := [] |}).2)).
Proof.
  intros c.
  apply (proj1 (pending_only_with_button_preserved c []
                  (λ _, mk_is_Some _ _ eq_refl))).
  reflexivity.
Defined.

(** One delivery of the signal leaves each connected controller as its
    listener leaves it, however many times it was connected, and leaves
    the others alone. *)
Theorem completion_signal_runs_each_listener_once (p : Page) (i : nat) :
  controllers (deliver p scoreUpdateSubmitted) !! i =
  if decide (i ∈ listeners p) then after_signal <$> controllers p !! i
  else controllers p !! i.
Proof. cbn. apply foldl_run_listener_lookup. Qed.

(** *** The scores as a whole *)

Lemma one_field_per_key (fields : list Field) (k : string) :
  NoDup ((λ val, Js.ToPropertyKey (form_id_of val)) <$> fields) →
  base.filter (λ val, Js.ToPropertyKey (form_id_of val) = k) fields = []
  ∨ ∃ val, base.filter (λ val, Js.ToPropertyKey (form_id_of val) = k) fields = [val].
Proof.
  induction fields as [|f fields IH]; [by left|].
  rewrite fmap_cons. intros [Hf Hnd]%NoDup_cons.
  destruct (decide (Js.ToPropertyKey (form_id_of f) = k)) as [Hk|Hk].
  - rewrite filter_cons_True by done. right. exists f. f_equal.
    destruct (base.filter _ fields) as [|g rest] eqn:Hrest; [done|].
    exfalso. apply Hf.
    assert (g ∈ base.filter (λ val, Js.ToPropertyKey (form_id_of val) = k) fields)
      as [Hg Hin]%list_elem_of_filter by (rewrite Hrest; by left).
    rewrite Hk, <- Hg.
    by apply (list_elem_of_fmap_2 (λ val, Js.ToPropertyKey (form_id_of val))).
  - rewrite filter_cons_False by done. by apply IH.
Qed.

(** With identifiers all different the scores do not depend on the
    order of the field targets: every identifier has the same value. *)
Theorem scores_do_not_depend_on_field_order (fields fields' : list Field) :
  NoDup ((λ val, Js.ToPropertyKey (form_id_of val)) <$> fields) →
  fields ≡ₚ fields' →
  collect_scores fields = collect_scores fields'.
Proof.
  intros Hnd Hperm. apply map_eq. intros k.
  destruct (decide (k = "__proto__")) as [->|Hk];
    [by rewrite !collect_scores_proto|].
  rewrite !collect_scores_lookup by done.
  assert (Hfilter : base.filter (λ val, Js.ToPropertyKey (form_id_of val) = k) fields'
                    ≡ₚ base.filter (λ val, Js.ToPropertyKey (form_id_of val) = k) fields)
    by (by rewrite Hperm).
  destruct (one_field_per_key fields k Hnd) as [Hnone|[val Hone]].
  - rewrite Hnone in *. apply Permutation_nil_r in Hfilter. by rewrite Hfilter.
  - rewrite Hone in *. apply Permutation_singleton_r in Hfilter. by rewrite Hfilter.
Qed.

Lemma scores_do_not_depend_on_field_order_witness :
  let a := {| field_id := "row-a-b-evt1"; field_value := "5" |} in
  let b := {| field_id := "row-a-b-evt2"; field_value := "2" |} in
  collect_scores [a; b] = collect_scores [b; a].
Proof.
  intros a b. apply scores_do_not_depend_on_field_order.
  - apply NoDup_cons_2; [|apply NoDup_singleton].
    intros Hin. by apply list_elem_of_singleton in Hin.
  - apply perm_swap.
Defined.

End ScoreSetProps.

(** ** Score display initializer *)

Module ScoreDisplayProps.
Import ScoreDisplay.

(** *** Assigning to [select.value] *)

Lemma find_deselect (opts : list OptionElement) :
  List.find selectedness (map deselect opts) = None.
Proof. by induction opts. Qed.


Lemma deselect_values (opts opts' : list OptionElement) :
  option_value <$> opts = option_value <$> opts' →
  map deselect opts = map deselect opts'.
Proof.
  revert opts'. induction opts as [|o opts IH]; intros [|o' opts'] Heq;
    try done.
  cbn in Heq. injection Heq as Ho Hopts. cbn [map]. unfold deselect at 1 3.
  by rewrite Ho, (IH opts').
Qed.

(** The assignment looks at the values of the options alone. *)
Lemma select_first_values (v : string) (opts opts' : list OptionElement) :
  option_value <$> opts = option_value <$> opts' →
  select_first v opts = select_first v opts'.
Proof.
  revert opts'. induction opts as [|o opts IH]; intros [|o' opts'] Heq;
    try done.
  cbn in Heq. injection Heq as Ho Hopts. cbn [select_first].
  rewrite Ho. destruct (String.eqb (option_value o') v).
  - by rewrite (deselect_values opts opts').
  - unfold deselect at 1 2. by rewrite Ho, (IH opts').
Qed.

Lemma select_first_keeps_values (v : string) (opts : list OptionElement) :
  option_value <$> select_first v opts = option_value <$> opts.
Proof.
  induction opts as [|o opts IH]; [done|]. cbn [select_first].
  destruct (String.eqb (option_value o) v); cbn [fmap list_fmap option_value].
  - f_equal. clear IH. by induction opts as [|o' opts IH]; [|cbn; rewrite IH].
  - cbn in IH. by rewrite IH.
Qed.

Lemma rendered_with_value (v : string) (sel : Select) :
  rendered (with_value v sel) = rendered sel.
Proof.
  unfold rendered, with_value. cbn [data_form_id options].
  by rewrite select_first_keeps_values.
Qed.

Lemma with_value_rendered (v : string) (sel sel' : Select) :
  rendered sel = rendered sel' → with_value v sel = with_value v sel'.
Proof.
  unfold rendered, with_value. intros [= Htag Hopts].
  by rewrite Htag, (select_first_values v _ _ Hopts).
Qed.

(** A second assignment undoes the first. *)
Lemma with_value_twice (v w : string) (sel : Select) :
  with_value v (with_value w sel) = with_value v sel.
Proof. apply with_value_rendered, rendered_with_value. Qed.

(** *** The callback *)

Section Controller.

Context (rt : Runtime).





(** The callback never throws, and the value it assigns depends on the
    score text and the element's tag alone. *)
Lemma initialize_by_tag (scoreValue : string) (tag : option string) :
  ∃ v : string, ∀ sel : Select,
    data_form_id sel = tag →
    initialize rt scoreValue sel = (Js.Normal tt, with_value v sel).
Proof.
  unfold initialize, Js.try_catch, mbind, M_bind, Js.bind, lift, Js.gets.
  destruct (JSON_parse rt scoreValue) as [eventScores|];
    [|by exists "0"; intros sel _].
  destruct tag as [[|c formId]|];
    [by exists "0"; intros sel ->| |by exists "0"; intros sel ->].
  destruct (Get rt eventScores (String c formId)) as [[[formScore|text]|]|] eqn:Hget;
    [|by exists text; intros sel ->; rewrite Hget
     |by exists "0"; intros sel ->; rewrite Hget..].
  destruct (toString rt formScore) as [v|e] eqn:Hstr.
  - destruct formScore;
      try (by exists v; intros sel ->; rewrite Hget; cbn in Hstr |- *;
              rewrite ?Hstr; inversion Hstr).
  - destruct formScore;
      try (by exists "0"; intros sel ->; rewrite Hget; cbn in Hstr |- *;
              rewrite ?Hstr; inversion Hstr).
Qed.

Lemma connect_maps (scoreValue : string) (scope : list Select) :
  connect rt scoreValue scope =
  (Js.Normal tt, (λ sel, (initialize rt scoreValue sel).2) <$> scope).
Proof.
  apply JsProps.forEach_total. intros sel.
  destruct (initialize_by_tag scoreValue (data_form_id sel)) as [v Hv].
  by rewrite Hv.
Qed.





(** C6.  Running [connect] again on what it left changes nothing, and two
    scopes of the same selects end the same whatever was selected in
    them; with the same tags alone, the same values are assigned to
    both. *)
Theorem connect_idempotent (scoreValue : string) (scope prior : list Select) :
  connect rt scoreValue (connect rt scoreValue scope).2 = connect rt scoreValue scope
  ∧ (rendered <$> prior = rendered <$> scope →
     (connect rt scoreValue prior).2 = (connect rt scoreValue scope).2)
  ∧ (data_form_id <$> prior = data_form_id <$> scope →
     ∃ assigned : list string,
       (connect rt scoreValue prior).2 = zip_with with_value assigned prior
       ∧ (connect rt scoreValue scope).2 = zip_with with_value assigned scope).
Proof.
  split; [|split].
  - rewrite !connect_maps. cbn [snd]. f_equal.
    rewrite <- list_fmap_compose. apply list_fmap_ext. intros _ sel _. cbn.
    destruct (initialize_by_tag scoreValue (data_form_id sel)) as [v Hv].
    rewrite (Hv sel eq_refl). cbn [snd].
    rewrite (Hv (with_value v sel) eq_refl). cbn [snd].
    apply with_value_twice.
  - rewrite !connect_maps. cbn [snd]. revert scope.
    induction prior as [|sel prior IH]; intros [|sel' scope] Hsame;
      try done.
    rewrite !fmap_cons in Hsame. injection Hsame as Htag Hopts Hsame.
    rewrite !fmap_cons. f_equal; [|by apply IH].
    destruct (initialize_by_tag scoreValue (data_form_id sel)) as [v Hv].
    rewrite (Hv sel eq_refl), (Hv sel' (eq_sym Htag)). cbn [snd].
    apply with_value_rendered. unfold rendered. by rewrite Htag, Hopts.
  - rewrite !connect_maps. cbn [snd]. revert scope.
    induction prior as [|sel prior IH]; intros [|sel' scope] Htags;
      try done.
    { by exists []. }
    cbn in Htags. injection Htags as Htag Htags.
    destruct (IH scope Htags) as (assigned & Hprior & Hscope).
    destruct (initialize_by_tag scoreValue (data_form_id sel)) as [v Hv].
    exists (v :: assigned). cbn [fmap list_fmap zip_with].
    rewrite (Hv sel eq_refl), (Hv sel' (eq_sym Htag)). cbn [snd].
    split; f_equal; done.
Qed.

(** Whatever the score text and the scope, [connect] does not throw. *)
Theorem connect_never_throws (scoreValue : string) (scope : list Select) :
  (connect rt scoreValue scope).1 = Js.Normal tt.
Proof. by rewrite connect_maps. Qed.

End Controller.





(** Two scopes of one select tagged [evt-1], left at different values. *)
Lemma connect_idempotent_witness :
  let select (chosen : string) :=
    {| data_form_id := Some "evt-1";
       options := (λ v, {| option_value := v;
                           selectedness := String.eqb v chosen |})
                  <$> ["0"; "1"; "2"; "3"] |} in
  let scores := "{" ++ String quote "evt-1" ++ String quote ": 3}" in
  (connect integer_runtime scores [select "1"]).2
  = (connect integer_runtime scores [select "2"]).2.
Proof.
  intros select scores.
  exact (proj1 (proj2 (connect_idempotent integer_runtime scores
                         [select "2"] [select "1"])) eq_refl).
Defined.

End ScoreDisplayProps.

(** ** Filter and redirect *)

Module FilterRedirectProps.
Import FilterRedirect.

(** *** What is written can be read back *)

Lemma cut_at_equals_app (s1 s2 : string) :
  Js.includes "=" s1 = false → cut_at_equals (s1 ++ String "=" s2) = (s1, s2).
Proof.
  induction s1 as [|a s1 IH]; simpl; [done|].
  intros [Ha Hs]%orb_false_iff. by rewrite Ha, IH.
Qed.

Lemma encode_byte_plain (c sep : ascii) :
  sep = "&"%char ∨ sep = "="%char → Js.includes sep (encode_byte c) = false.
Proof.
  intros [->| ->];
    destruct c as [[|] [|] [|] [|] [|] [|] [|] [|]]; reflexivity.
Qed.

(** The serializer writes neither [&] nor [=] inside a name or a value. *)
Lemma encode_plain (s : string) (sep : ascii) :
  sep = "&"%char ∨ sep = "="%char → Js.includes sep (encode s) = false.
Proof.
  intros Hsep. induction s as [|c s IH]; simpl; [done|].
  by rewrite JsProps.includes_app, encode_byte_plain, IH.
Qed.

Lemma plus_to_space_app (s1 s2 : string) :
  plus_to_space (s1 ++ s2) = plus_to_space s1 ++ plus_to_space s2.
Proof. induction s1 as [|a s1 IH]; simpl; [done|]. by rewrite IH. Qed.

Lemma decode_encode_byte (c : ascii) (rest : string) :
  percent_decode (plus_to_space (encode_byte c) ++ rest) =
  String c (percent_decode rest).
Proof.
  destruct c as [[|] [|] [|] [|] [|] [|] [|] [|]]; reflexivity.
Qed.

Lemma decode_encode (s : string) : percent_decode (plus_to_space (encode s)) = s.
Proof.
  induction s as [|c s IH]; cbn [encode]; [done|].
  by rewrite plus_to_space_app, decode_encode_byte, IH.
Qed.

Lemma parse_pair_encode (p : string * string) :
  parse_pair (encode p.1 ++ "=" ++ encode p.2) =
  (utf8_decode p.1, utf8_decode p.2).
Proof.
  destruct p as [n v]. unfold parse_pair. cbn [fst snd].
  change ("=" ++ encode v) with (String "=" (encode v)).
  rewrite cut_at_equals_app by (apply encode_plain; by right).
  by rewrite !decode_encode.
Qed.

Lemma split_join_nonempty (segs : list string) :
  Forall (λ s, nonempty s = true ∧ Js.includes "&" s = false) segs →
  List.filter nonempty (Js.split "&" (Js.join "&" segs)) = segs.
Proof.
  intros Hall. destruct segs as [|seg segs]; [done|].
  rewrite JsProps.split_join by (eapply Forall_impl; [done|]; by intros s [_ ?]).
  induction Hall as [|s l [Hne _] _ IH]; [done|].
  cbn [List.filter]. by rewrite Hne, IH.
Qed.

(** *** Reading bytes as text *)

Lemma utf8_decode_replacement (s : string) :
  utf8_decode (replacement s) = replacement (utf8_decode s).
Proof. reflexivity. Qed.

Lemma utf8_decode_idemp_upto (n : nat) :
  ∀ s : string, (String.length s ≤ n)%nat →
    utf8_decode (utf8_decode s) = utf8_decode s.
Proof.
  induction n as [|n IH]; intros s Hlen.
  { by destruct s; [|cbn in Hlen; lia]. }
  destruct s as [|a r1]; [done|]. cbn [String.length] in Hlen.
  assert (H1 : utf8_decode (utf8_decode r1) = utf8_decode r1)
    by (apply IH; lia).
  cbn [utf8_decode].
  destruct (in_range 0 127 a) eqn:Hascii.
  { cbn [utf8_decode]. by rewrite Hascii, H1. }
  destruct (in_range 194 223 a) eqn:Htwo.
  { destruct r1 as [|b r2]; [done|]. cbn [String.length] in Hlen.
    destruct (in_range 128 191 b) eqn:Hb.
    - cbn [utf8_decode]. rewrite Hascii, Htwo, Hb. rewrite IH by lia. done.
    - by rewrite utf8_decode_replacement, H1. }
  destruct (in_range 224 239 a) eqn:Hthree.
  { destruct r1 as [|b r2]; [done|]. cbn [String.length] in Hlen.
    destruct (in_range (second_from a) (second_to a) b) eqn:Hb;
      [|by rewrite utf8_decode_replacement, H1].
    destruct r2 as [|c r3]; [done|]. cbn [String.length] in Hlen.
    destruct (in_range 128 191 c) eqn:Hc.
    - cbn [utf8_decode]. rewrite Hascii, Htwo, Hthree, Hb, Hc.
      rewrite IH by lia. done.
    - rewrite utf8_decode_replacement. by rewrite (IH (String c r3)) by (cbn; lia). }
  destruct (in_range 240 244 a) eqn:Hfour.
  { destruct r1 as [|b r2]; [done|]. cbn [String.length] in Hlen.
    destruct (in_range (second_from a) (second_to a) b) eqn:Hb;
      [|by rewrite utf8_decode_replacement, H1].
    destruct r2 as [|c r3]; [done|]. cbn [String.length] in Hlen.
    destruct (in_range 128 191 c) eqn:Hc;
      [|by rewrite utf8_decode_replacement, (IH (String c r3)) by (cbn; lia)].
    destruct r3 as [|d r4]; [done|]. cbn [String.length] in Hlen.
    destruct (in_range 128 191 d) eqn:Hd.
    - cbn [utf8_decode]. rewrite Hascii, Htwo, Hthree, Hfour, Hb, Hc, Hd.
      rewrite IH by lia. done.
    - rewrite utf8_decode_replacement. by rewrite (IH (String d r4)) by (cbn; lia). }
  by rewrite utf8_decode_replacement, H1.
Qed.

Lemma utf8_decode_idemp (s : string) :
  utf8_decode (utf8_decode s) = utf8_decode s.
Proof. by apply (utf8_decode_idemp_upto (String.length s)). Qed.

Lemma utf8_decode_ascii (s : string) :
  Forall (in_range 0 127) (list_ascii_of_string s) → utf8_decode s = s.
Proof.
  induction s as [|a s IH]; [done|]. cbn [list_ascii_of_string].
  intros [Ha Hs]%Forall_cons. cbn [utf8_decode].
  rewrite (Is_true_true_1 _ Ha). by rewrite IH.
Qed.

(** What the parser reads is text. *)
Lemma parse_scalar (init : string) : Forall scalar (parse init).
Proof.
  unfold parse. apply Forall_forall. intros p [seq [<- _]]%list_elem_of_In%in_map_iff.
  unfold parse_pair. destruct (cut_at_equals seq) as [n v].
  split; apply utf8_decode_idemp.
Qed.

(** Reading the serialized pairs gives the pairs back, read as text. *)
Lemma parse_serialize_any (params : list (string * string)) :
  parse ("?" ++ serialize params) =
  map (λ p, (utf8_decode p.1, utf8_decode p.2)) params.
Proof.
  change ("?" ++ serialize params) with (String "?" (serialize params)).
  unfold parse, serialize.
  rewrite split_join_nonempty.
  - rewrite map_map. apply map_ext. intros p. apply parse_pair_encode.
  - apply Forall_forall. intros s [p [<- _]]%list_elem_of_In%in_map_iff. split.
    + by destruct (encode p.1).
    + change ("=" ++ encode p.2) with (String "=" (encode p.2)).
      rewrite JsProps.includes_app. simpl.
      by rewrite !encode_plain by (by left).
Qed.

(** Reading the serialized pairs of texts gives the pairs back. *)
Lemma parse_serialize (params : list (string * string)) :
  Forall scalar params → parse ("?" ++ serialize params) = params.
Proof.
  intros Hall. rewrite parse_serialize_any.
  induction Hall as [|[n v] params [Hn Hv] _ IH]; [done|].
  cbn [map fst snd] in *. by rewrite Hn, Hv, IH.
Qed.

(** *** Setting and deleting a name *)

Lemma delete_pairs_filter (key : string) (params : list (string * string)) :
  delete_pairs key params = base.filter (λ p, p.1 ≠ key) params.
Proof.
  unfold delete_pairs. induction params as [|p params IH]; [done|].
  cbn [List.filter]. destruct (String.eqb_spec p.1 key) as [Heq|Hne]; cbn [negb].
  - rewrite filter_cons_False by (intros H; by apply H). done.
  - rewrite filter_cons_True by done. by rewrite IH.
Qed.

Lemma delete_pairs_forgets (key : string) (params : list (string * string)) :
  base.filter (λ p, p.1 = key) (delete_pairs key params) = [].
Proof.
  rewrite delete_pairs_filter. induction params as [|p params IH]; [done|].
  destruct (decide (p.1 = key)).
  - rewrite filter_cons_False by (intros H; by apply H). done.
  - rewrite filter_cons_True by done. by rewrite filter_cons_False.
Qed.

Lemma delete_pairs_keeps (key : string) (params : list (string * string)) :
  base.filter (λ p, p.1 ≠ key) (delete_pairs key params) =
  base.filter (λ p, p.1 ≠ key) params.
Proof.
  rewrite delete_pairs_filter. induction params as [|p params IH]; [done|].
  destruct (decide (p.1 = key)).
  - rewrite !filter_cons_False by (intros H; by apply H). done.
  - rewrite !filter_cons_True by done. by rewrite IH.
Qed.

Lemma delete_pairs_all (key : string) (params : list (string * string)) :
  (∀ p, p ∈ params → p.1 = key) → delete_pairs key params = [].
Proof.
  intros Hall. rewrite delete_pairs_filter.
  induction params as [|p params IH]; [done|].
  rewrite filter_cons_False.
  - apply IH. intros q Hq. apply Hall. by apply elem_of_cons; right.
  - intros H. apply H, Hall. by apply elem_of_cons; left.
Qed.

Lemma delete_pairs_scalar (key : string) (params : list (string * string)) :
  Forall scalar params → Forall scalar (delete_pairs key params).
Proof.
  intros Hall. rewrite delete_pairs_filter. apply Forall_forall.
  intros p [_ Hp]%list_elem_of_filter.
  by apply (proj1 (Forall_forall _ _) Hall).
Qed.

Lemma set_pair_binds (key value : string) (params : list (string * string)) :
  base.filter (λ p, p.1 = key) (set_pair key value params) = [(key, value)].
Proof.
  induction params as [|p params IH].
  - cbn [set_pair]. by rewrite filter_cons_True.
  - cbn [set_pair]. destruct (String.eqb_spec p.1 key) as [Heq|Hne].
    + rewrite filter_cons_True by done. by rewrite delete_pairs_forgets.
    + rewrite filter_cons_False by done. done.
Qed.

Lemma set_pair_keeps (key value : string) (params : list (string * string)) :
  base.filter (λ p, p.1 ≠ key) (set_pair key value params) =
  base.filter (λ p, p.1 ≠ key) params.
Proof.
  induction params as [|p params IH].
  - cbn [set_pair]. by rewrite filter_cons_False by (intros H; by apply H).
  - cbn [set_pair]. destruct (String.eqb_spec p.1 key) as [Heq|Hne].
    + rewrite !filter_cons_False by (intros H; by apply H).
      apply delete_pairs_keeps.
    + rewrite !filter_cons_True by done. by rewrite IH.
Qed.

Lemma set_pair_scalar (key value : string) (params : list (string * string)) :
  scalar (key, value) → Forall scalar params →
  Forall scalar (set_pair key value params).
Proof.
  intros Hkv Hall. induction Hall as [|p params Hp Hall IH]; cbn [set_pair].
  - by apply Forall_singleton.
  - destruct (String.eqb p.1 key).
    + apply Forall_cons. split; [done|]. by apply delete_pairs_scalar.
    + by apply Forall_cons.
Qed.

(** What [delete] and [set] leave is text when what they are given is. *)
Lemma delete_scalar (key : string) (params : list (string * string)) :
  Forall scalar params → Forall scalar (delete key params).
Proof. apply delete_pairs_scalar. Qed.

Lemma set_scalar (key value : string) (params : list (string * string)) :
  Forall scalar params → Forall scalar (set key value params).
Proof.
  apply set_pair_scalar. split; apply utf8_decode_idemp.
Qed.

Lemma filter_run (search key value : string) (events : list CustomEvent) :
  filter {| location_search := search;
            this := {| keyValue := key; valueValue := value |};
            document := events |} =
  (Js.Normal tt,
   {| location_search := search;
      this := {| keyValue := key; valueValue := value |};
      document := events ++
        [doSafeScoreRedirect
           ("?" ++ serialize (if negb (String.eqb value "all")
                              then set key value (parse search)
                              else delete key (parse search)))] |}).
Proof. reflexivity. Qed.

(** C7.  [filter] completes and hands the document one
    "doSafeScoreRedirect" event whose [params] is a "?" followed by a query,
    written the way the serializer writes what the text reads as.  Read
    back, the text keeps the pairs of every other name as the current query
    has them, in their order; with the value "all" it has no pair named by
    the key, and with any other value it has exactly one, carrying the
    value.  Key and value are the texts the controller's values spell. *)
Theorem filter_sets_or_removes_key (search key value : string)
    (events : list CustomEvent) :
  ∃ query : string,
    filter {| location_search := search;
              this := {| keyValue := key; valueValue := value |};
              document := events |} =
    (Js.Normal tt,
     {| location_search := search;
        this := {| keyValue := key; valueValue := value |};
        document := events ++ [doSafeScoreRedirect (String "?" query)] |})
    ∧ query = serialize (parse (String "?" query))
    ∧ base.filter (λ p, p.1 ≠ utf8_decode key) (parse (String "?" query)) =
      base.filter (λ p, p.1 ≠ utf8_decode key) (parse search)
    ∧ (value = "all" →
       base.filter (λ p, p.1 = utf8_decode key) (parse (String "?" query)) = [])
    ∧ (value ≠ "all" →
       base.filter (λ p, p.1 = utf8_decode key) (parse (String "?" query)) =
       [(utf8_decode key, utf8_decode value)])
    ∧ (Forall (in_range 0 127) (list_ascii_of_string key) → utf8_decode key = key)
    ∧ (Forall (in_range 0 127) (list_ascii_of_string value) →
       utf8_decode value = value).
Proof.
  rewrite filter_run.
  destruct (String.eqb_spec value "all") as [Hall|Hother]; cbn [negb].
  - exists (serialize (delete key (parse search))).
    change (String "?" (serialize ?l)) with ("?" ++ serialize l).
    rewrite parse_serialize by apply delete_scalar, parse_scalar.
    split; [done|]. split; [done|].
    split; [apply delete_pairs_keeps|]. split; [|split; [done|]].
    + intros _. apply delete_pairs_forgets.
    + split; apply utf8_decode_ascii.
  - exists (serialize (set key value (parse search))).
    change (String "?" (serialize ?l)) with ("?" ++ serialize l).
    rewrite parse_serialize by apply set_scalar, parse_scalar.
    split; [done|]. split; [done|].
    split; [apply set_pair_keeps|]. split; [done|]. split.
    + intros _. apply set_pair_binds.
    + split; apply utf8_decode_ascii.
Qed.

(** Scenario 5: "house" is set to "red", and then to "all".  And a query
    with an escape that spells no text: the pair is kept with U+FFFD. *)
Lemma filter_sets_or_removes_key_witness :
  let run (search key value : string) :=
    filter {| location_search := search;
              this := {| keyValue := key; valueValue := value |};
              document := [] |} in
  document (run "?house=all&year=2024" "house" "red").2 =
    [doSafeScoreRedirect "?house=red&year=2024"]
  ∧ document (run "?house=red&year=2024" "house" "all").2 =
    [doSafeScoreRedirect "?year=2024"]
  ∧ base.filter (λ p, p.1 = "house") (parse "?house=red&year=2024") =
    [("house", "red")]
  ∧ base.filter (λ p, p.1 = "house") (parse "?year=2024") = []
  ∧ document (run "?a=%FF&b=1" "b" "all").2 =
    [doSafeScoreRedirect "?a=%EF%BF%BD"].
Proof.
  intros run.
  destruct (filter_sets_or_removes_key "?house=all&year=2024" "house" "red" [])
    as (query1 & Hrun1 & _ & _ & _ & Hset & _).
  destruct (filter_sets_or_removes_key "?house=red&year=2024" "house" "all" [])
    as (query2 & Hrun2 & _ & _ & Hremoved & _).
  destruct (filter_sets_or_removes_key "?a=%FF&b=1" "b" "all" [])
    as (query3 & Hrun3 & _).
  assert (Hq1 : query1 = "house=red&year=2024").
  { vm_compute in Hrun1. by injection Hrun1 as <-. }
  assert (Hq2 : query2 = "year=2024").
  { vm_compute in Hrun2. by injection Hrun2 as <-. }
  assert (Hq3 : query3 = "a=%EF%BF%BD").
  { vm_compute in Hrun3. by injection Hrun3 as <-. }
  subst query1 query2 query3.
  split; [by vm_compute|]. split; [by vm_compute|].
  split; [apply Hset; discriminate|]. split; [by apply Hremoved|].
  unfold run. by rewrite Hrun3.
Defined.

(** C10.  When every pair of the current query is named by the key, so
    also when the query is empty, [filter] with the value "all" publishes
    the lone "?". *)
Theorem filter_all_on_last_key_publishes_question_mark (search key : string)
    (events : list CustomEvent) :
  (∀ p, p ∈ parse search → p.1 = key) →
  filter {| location_search := search;
            this := {| keyValue := key; valueValue := "all" |};
            document := events |} =
  (Js.Normal tt,
   {| location_search := search;
      this := {| keyValue := key; valueValue := "all" |};
      document := events ++ [doSafeScoreRedirect "?"] |}).
Proof.
  intros Hall. rewrite filter_run. cbn [String.eqb Ascii.eqb Bool.eqb negb].
  unfold delete. rewrite delete_pairs_all; [done|].
  intros p Hp.
  destruct (proj1 (Forall_forall _ _) (parse_scalar search) p Hp) as [Hname _].
  by rewrite <- (Hall p Hp).
Qed.

(** The only key goes, and an empty query stays empty. *)
Lemma filter_all_on_last_key_publishes_question_mark_witness :
  let run (search : string) :=
    filter {| location_search := search;
              this := {| keyValue := "house"; valueValue := "all" |};
              document := [] |} in
  document (run "?house=red").2 = [doSafeScoreRedirect "?"]
  ∧ document (run "").2 = [doSafeScoreRedirect "?"].
Proof.
  intros run. split.
  - unfold run.
    rewrite (filter_all_on_last_key_publishes_question_mark "?house=red" "house" []);
      [done|].
    intros p Hp. vm_compute in Hp. apply list_elem_of_In in Hp.
    by destruct Hp as [<-|[]].
  - unfold run.
    rewrite (filter_all_on_last_key_publishes_question_mark "" "house" []);
      [done|].
    intros p Hp. vm_compute in Hp. by apply elem_of_nil in Hp.
Defined.

(** *** Filtering again *)

Lemma delete_pairs_cons (key : string) (p : string * string)
    (params : list (string * string)) :
  delete_pairs key (p :: params) =
  if String.eqb p.1 key then delete_pairs key params
  else p :: delete_pairs key params.
Proof. unfold delete_pairs. cbn [List.filter]. by destruct (String.eqb p.1 key). Qed.

Lemma delete_pairs_twice (key : string) (params : list (string * string)) :
  delete_pairs key (delete_pairs key params) = delete_pairs key params.
Proof.
  induction params as [|p params IH]; [done|]. rewrite delete_pairs_cons.
  destruct (String.eqb p.1 key) eqn:Hp; [done|].
  by rewrite delete_pairs_cons, Hp, IH.
Qed.

Lemma delete_pairs_set_pair (key value : string) (params : list (string * string)) :
  delete_pairs key (set_pair key value params) = delete_pairs key params.
Proof.
  induction params as [|p params IH]; cbn [set_pair].
  - rewrite delete_pairs_cons. cbn [fst]. by rewrite String.eqb_refl.
  - rewrite (delete_pairs_cons key p). destruct (String.eqb p.1 key) eqn:Hp.
    + rewrite delete_pairs_cons. cbn [fst]. rewrite String.eqb_refl.
      apply delete_pairs_twice.
    + by rewrite delete_pairs_cons, Hp, IH.
Qed.

Lemma set_pair_twice (key value : string) (params : list (string * string)) :
  set_pair key value (set_pair key value params) = set_pair key value params.
Proof.
  induction params as [|p params IH]; cbn [set_pair].
  - cbn [fst]. by rewrite String.eqb_refl.
  - destruct (String.eqb p.1 key) eqn:Hp; cbn [set_pair fst].
    + by rewrite String.eqb_refl, delete_pairs_twice.
    + by rewrite Hp, IH.
Qed.

(** [filter] run again on the query it has published publishes that
    query again: the published query is one the same filter leaves as it
    is. *)
Theorem filter_again_publishes_the_same (search key value : string)
    (events events' : list CustomEvent) :
  ∃ query : string,
    filter {| location_search := search;
              this := {| keyValue := key; valueValue := value |};
              document := events |} =
    (Js.Normal tt,
     {| location_search := search;
        this := {| keyValue := key; valueValue := value |};
        document := events ++ [doSafeScoreRedirect query] |})
    ∧ filter {| location_search := query;
                this := {| keyValue := key; valueValue := value |};
                document := events' |} =
      (Js.Normal tt,
       {| location_search := query;
          this := {| keyValue := key; valueValue := value |};
          document := events' ++ [doSafeScoreRedirect query] |}).
Proof.
  eexists. split; [apply filter_run|]. rewrite filter_run.
  destruct (negb (String.eqb value "all")).
  - rewrite parse_serialize by apply set_scalar, parse_scalar.
    unfold set. by rewrite set_pair_twice.
  - rewrite parse_serialize by apply delete_scalar, parse_scalar.
    unfold delete. by rewrite delete_pairs_twice.
Qed.

(** The value "all" undoes a filter: on the query [filter] has published
    for a key, [filter] with the value "all" for that key publishes what
    it publishes on the query there was before. *)
Theorem filter_all_undoes_a_value (search key value : string)
    (events events' : list CustomEvent) :
  ∃ query : string,
    filter {| location_search := search;
              this := {| keyValue := key; valueValue := value |};
              document := events |} =
    (Js.Normal tt,
     {| location_search := search;
        this := {| keyValue := key; valueValue := value |};
        document := events ++ [doSafeScoreRedirect query] |})
    ∧ document (filter {| location_search := query;
                          this := {| keyValue := key; valueValue := "all" |};
                          document := events' |}).2 =
      document (filter {| location_search := search;
                          this := {| keyValue := key; valueValue := "all" |};
                          document := events' |}).2.
Proof.
  eexists. split; [apply filter_run|]. rewrite !filter_run.
  cbn [snd document String.eqb Ascii.eqb Bool.eqb negb].
  destruct (negb (String.eqb value "all")).
  - rewrite parse_serialize by apply set_scalar, parse_scalar.
    unfold set, delete. by rewrite delete_pairs_set_pair.
  - rewrite parse_serialize by apply delete_scalar, parse_scalar.
    unfold delete. by rewrite delete_pairs_twice.
Qed.

End FilterRedirectProps.

(** ** Status banner *)

Module StatusShowProps.
Import StatusShow.

Section Controller.

Context (rt : Runtime).

(** Events of other names do not reach the banner. *)
Lemma deliver_other (b : Banner rt) (e : CustomEvent) :
  (∀ status, e ≠ updateStatus status) → deliver rt b e = b.
Proof. intros He. destruct e; try done. by destruct (He status). Qed.

(** However many listeners the banner has, at least one, the event leaves
    the nodes its status parses to. *)
Lemma deliver_status (b : Banner rt) (status : string) :
  deliver rt (connect rt b) (updateStatus status) =
  connect rt {| element := {| children := parseFragment rt status |};
                listeners := listeners b |}.
Proof.
  reflexivity.
Qed.

(** Among events of any names the banner follows the "updateStatus"
    ones alone: its children are the nodes the status of the last of them
    parses to, and its own when there is none. *)
Theorem banner_follows_status_events_only (b : Banner rt)
    (events : list CustomEvent) :
  children (element (deliver_all rt events (connect rt b))) =
  match last (omap (λ e, match e with
                         | updateStatus status => Some status
                         | _ => None
                         end) events) with
  | Some status => parseFragment rt status
  | None => children (element b)
  end.
Proof.
  revert b. induction events as [|e events IH]; intros b; [done|].
  unfold deliver_all in *. cbn [foldl].
  destruct e as [| | |status]; [apply IH..|].
  rewrite deliver_status, IH. cbn [element children].
  change (omap ?f (updateStatus status :: events))
    with (status :: omap f events).
  rewrite last_cons. by destruct (last _).
Qed.

Lemma deliver_all_statuses (statuses : list string) (b : Banner rt) :
  children (element (deliver_all rt (updateStatus <$> statuses) (connect rt b))) =
  match last statuses with
  | Some status => parseFragment rt status
  | None => children (element b)
  end.
Proof.
  revert b. induction statuses as [|status statuses IH]; intros b; [done|].
  unfold deliver_all in *. cbn [fmap list_fmap foldl].
  rewrite deliver_status, IH. cbn [element children].
  rewrite last_cons. by destruct (last statuses).
Qed.

(** C9, as the controller does it.  After any sequence of "updateStatus"
    events the children of a connected banner are the nodes the status of
    the last event parses to, whatever it held and whatever came before,
    and its own children when no event came; read back as markup the
    banner gives these nodes as the serializer writes them. *)
Theorem banner_shows_last_status (b : Banner rt) (statuses : list string) :
  children (element (deliver_all rt (updateStatus <$> statuses) (connect rt b))) =
  match last statuses with
  | Some status => parseFragment rt status
  | None => children (element b)
  end
  ∧ innerHTML rt (element (deliver_all rt (updateStatus <$> statuses) (connect rt b))) =
    match last statuses with
    | Some status => serializeFragment rt (parseFragment rt status)
    | None => innerHTML rt (element b)
    end.
Proof.
  unfold innerHTML. rewrite deliver_all_statuses.
  split; [done|]. by destruct (last statuses).
Qed.

End Controller.

(** C9 as stated fails: the status "2 > 1" is shown, and read back the
    banner gives "2 &gt; 1", which is not the payload. *)
Lemma banner_reads_back_escaped_counterexample :
  let b := connect plain_runtime
             {| element := {| children := ([] : Nodes plain_runtime) |};
                listeners := 0 |} in
  let shown := deliver_all plain_runtime [updateStatus "2 > 1"] b in
  children (element shown) = [Text "2 > 1"]
  ∧ innerHTML plain_runtime (element shown) = "2 &gt; 1"
  ∧ innerHTML plain_runtime (element shown) ≠ "2 > 1".
Proof. intros b shown. split; [done|]. split; [done|]. by vm_compute. Qed.

End StatusShowProps.

(** ** Trimming *)

Module TextProps.

Lemma strip_blank (sp1 : ascii → bool) (sp2 : ascii → ascii → bool)
    (sp3 : ascii → ascii → ascii → bool) (s : string) :
  Forall (λ a, sp1 a = true) (list_ascii_of_string s) →
  Text.strip sp1 sp2 sp3 s = "".
Proof.
  induction s as [|a s IH]; [done|].
  cbn [list_ascii_of_string]. intros [Ha Hs]%Forall_cons.
  cbn [Text.strip]. rewrite Ha. by apply IH.
Qed.

(** A text of spaces, tabs and line breaks trims to nothing. *)
Lemma trim_blank (s : string) :
  Forall (λ a, Text.ascii_space a = true) (list_ascii_of_string s) →
  Text.trim s = "".
Proof.
  intros Hs. unfold Text.trim, Text.trimStart. by rewrite strip_blank.
Qed.

End TextProps.

(** ** SQLite console *)

Module SqliteConsoleProps.
Import SqliteConsole.

#[local] Ltac run_js :=
  unfold executeCommand, fetch_settled, json_settled, on_error, clear, connect,
    focus, addToHistory, remove, scrollToBottom, get_terminalTarget,
    get_historyTarget, get_inputTarget, Js.try_catch, mbind, M_bind, Js.bind,
    mret, M_ret, Js.gets, Js.modify, Js.ret, Js.throw;
  cbn -[Text.trim].

(** An element that is not in the history is removed from it at no cost. *)
Lemma remove_fresh (element : nat) (h : list Node) :
  (∀ id className text, Element id className text ∈ h → id ≠ element) →
  List.filter (λ n, negb (is_element element n)) h = h.
Proof.
  induction h as [|n h IH]; intros Hfresh; [done|].
  cbn [List.filter].
  assert (Hn : is_element element n = false).
  { destruct n as [|id cls txt]; [done|]. cbn. apply Nat.eqb_neq.
    apply (Hfresh id cls txt). by left. }
  rewrite Hn. cbn [negb]. f_equal. apply IH.
  intros id cls txt Hin. apply (Hfresh id cls txt). by right.
Qed.

Section Runtime.

Variable message_of : Js.Error → string.

(** An input of nothing but spaces, tabs and line breaks is no command:
    nothing is echoed, nothing sent, and the input keeps its text. *)
Theorem blank_command_does_nothing (c : Console) (i : Input) :
  inputTarget c = Some i →
  Forall (λ a, Text.ascii_space a = true) (list_ascii_of_string (value i)) →
  executeCommand c = (Js.Normal None, c).
Proof.
  intros Hi Hblank. run_js. rewrite Hi. cbn -[Text.trim].
  by rewrite TextProps.trim_blank.
Qed.

(** [executeCommand] up to its first [await], on a console with its
    targets and a command in the input. *)

Lemma executeCommand_sends (c : Console) (t : nat) (h : list Node) (i : Input) :
  terminalTarget c = Some t → historyTarget c = Some h → inputTarget c = Some i →
  Text.trim (value i) ≠ "" →
  executeCommand c =
  (Js.Normal (Some ({| url := "/admin/sqlite/execute"; method := "POST";
                       content_type := "application/json";
                       query := Text.trim (value i) |}, S (created c))),
   {| terminalTarget := Some (S (S t));
      historyTarget :=
        Some (h ++ [Element (created c) "user-command"
                      ("sqlite> " ++ Text.trim (value i));
                    Element (S (created c)) "loading" "Executing..."])%list;
      inputTarget := Some {| value := ""; focused := focused i |};
      commandHistory := commandHistory c ++ [Text.trim (value i)];
      created := S (S (created c)) |}).
Proof.
  intros Ht Hh Hi Hcmd. destruct c as [? ? ? cmds n]. cbn in *. subst.
  run_js. destruct (Text.trim (value i)) as [|a cmd] eqn:Htrim; [done|].
  cbn. by rewrite <- app_assoc.
Qed.

Lemma remove_twice (element : nat) (h : list Node) :
  List.filter (λ n, negb (is_element element n))
    (List.filter (λ n, negb (is_element element n)) h) =
  List.filter (λ n, negb (is_element element n)) h.
Proof.
  induction h as [|n h IH]; [done|]. cbn [List.filter].
  destruct (negb (is_element element n)) eqn:Hn; [|done].
  cbn [List.filter]. by rewrite Hn, IH.
Qed.

(** What the settling of a call leaves, on a console with its targets:
    the loading element is gone and one element is added. *)
Lemma fetch_settled_reports (c : Console) (t : nat) (h : list Node)
    (element : nat) (outcome : FetchOutcome) :
  terminalTarget c = Some t → historyTarget c = Some h →
  fetch_settled message_of element outcome c =
  match outcome with
  | Responded true =>
      (Js.Normal (Some element),
       set_historyTarget
         (List.filter (λ n, negb (is_element element n)) h) c)
  | _ =>
      (Js.Normal None,
       {| terminalTarget := Some (S (S t));
          historyTarget :=
            Some (List.filter (λ n, negb (is_element element n)) h ++
                  [Element (created c) "command-error"
                     match outcome with
                     | FetchRejected message => "Error: " ++ message
                     | _ => "Error: Failed to execute command"
                     end])%list;
          inputTarget := inputTarget c;
          commandHistory := commandHistory c;
          created := S (created c) |})
  end.
Proof.
  intros Ht Hh. destruct c as [? ? ? cmds n]. cbn in *. subst.
  destruct outcome as [message|[|]]; run_js; try done.
  by rewrite remove_twice.
Qed.

Lemma json_settled_reports (c : Console) (t : nat) (h : list Node)
    (element : nat) (outcome : JsonOutcome) :
  terminalTarget c = Some t → historyTarget c = Some h →
  json_settled message_of element outcome c =
  (Js.Normal tt,
   {| terminalTarget := Some (S (S t));
      historyTarget :=
        Some (match outcome with
              | JsonRejected message =>
                  List.filter (λ n, negb (is_element element n)) h ++
                  [Element (created c) "command-error" ("Error: " ++ message)]
              | JsonResolved result =>
                  h ++
                  [if success result then
                     Element (created c) "command-output"
                       (if nonempty (Text.trim (output result))
                        then output result
                        else "Query executed successfully.")
                   else
                     Element (created c) "command-error"
                       ("Error: " ++ match error result with
                                     | Some (String a rest) => String a rest
                                     | _ => "Unknown error occurred"
                                     end)]
              end)%list;
      inputTarget := inputTarget c;
      commandHistory := commandHistory c;
      created := S (created c) |}).
Proof.
  intros Ht Hh. destruct c as [? ? ? cmds n]. cbn in *. subst.
  destruct outcome as [message|[[|] out err]]; run_js; try done.
  by destruct (nonempty (Text.trim out)).
Qed.

(** A loading element that is yet to be made is not in the history. *)
Lemma numbered_fresh (c : Console) (h : list Node) (element : nat) :
  historyTarget c = Some h → numbered c → (created c ≤ element)%nat →
  List.filter (λ n, negb (is_element element n)) h = h.
Proof.
  intros Hh Hnum Hle. apply remove_fresh. intros id cls txt Hin.
  assert (id < created c)%nat; [|lia].
  apply (Hnum id cls txt). unfold shown. by rewrite Hh.
Qed.

(** One command from the key press to the end of [executeCommand], with
    nothing else happening in between: the history gains the echo of the
    trimmed command and one report, which is the output (or "Query
    executed successfully." for a blank one), the error of the result
    (or "Unknown error occurred"), "Failed to execute command" for a
    response that is not ok, or the message of what was thrown; the
    loading indicator is gone, the input is empty, one request was sent
    and nothing is awaited. *)
Theorem command_runs_to_completion (c : Console) (t : nat) (h : list Node)
    (i : Input) (arrived : FetchOutcome) (read : JsonOutcome) :
  terminalTarget c = Some t → historyTarget c = Some h → inputTarget c = Some i →
  numbered c → Text.trim (value i) ≠ "" →
  run message_of
    [Executes; FetchSettles (S (created c)) arrived;
     JsonSettles (S (created c)) read] (opened c) =
  {| console :=
       {| terminalTarget := Some (S (S (S (S t))));
          historyTarget :=
            Some (h ++
                  [Element (created c) "user-command"
                     ("sqlite> " ++ Text.trim (value i));
                   match arrived, read with
                   | FetchRejected message, _
                   | Responded true, JsonRejected message =>
                       Element (S (S (created c))) "command-error"
                         ("Error: " ++ message)
                   | Responded false, _ =>
                       Element (S (S (created c))) "command-error"
                         "Error: Failed to execute command"
                   | Responded true, JsonResolved result =>
                       if success result then
                         Element (S (S (created c))) "command-output"
                           (if nonempty (Text.trim (output result))
                            then output result
                            else "Query executed successfully.")
                       else
                         Element (S (S (created c))) "command-error"
                           ("Error: " ++ match error result with
                                         | Some (String a rest) => String a rest
                                         | _ => "Unknown error occurred"
                                         end)
                   end])%list;
          inputTarget := Some {| value := ""; focused := focused i |};
          commandHistory := commandHistory c ++ [Text.trim (value i)];
          created := S (S (S (created c))) |};
     sent := [{| url := "/admin/sqlite/execute"; method := "POST";
                 content_type := "application/json";
                 query := Text.trim (value i) |}];
     awaiting_fetch := [];
     awaiting_json := [] |}.
Proof.
  intros Ht Hh Hi Hnum Hcmd. unfold run, opened. cbn [foldl].
  unfold step at 3. cbn [console sent awaiting_fetch awaiting_json].
  rewrite (executeCommand_sends c t h i Ht Hh Hi Hcmd). cbn [app].
  set (c1 := {| terminalTarget := Some (S (S t)) |}).
  assert (Hgone : List.filter (λ n, negb (is_element (S (created c)) n))
                    (h ++ [Element (created c) "user-command"
                             ("sqlite> " ++ Text.trim (value i));
                           Element (S (created c)) "loading" "Executing..."])
                  = (h ++ [Element (created c) "user-command"
                             ("sqlite> " ++ Text.trim (value i))])%list).
  { rewrite List.filter_app, (numbered_fresh c h) by (done || lia).
    cbn. rewrite Nat.eqb_refl.
    replace (created c =? S (created c))%nat with false
      by (symmetry; apply Nat.eqb_neq; lia). done. }
  unfold step at 2. cbn [console sent awaiting_fetch awaiting_json existsb].
  rewrite Nat.eqb_refl. cbn [orb].
  rewrite (fetch_settled_reports c1 (S (S t)) _ (S (created c)) arrived eq_refl eq_refl).
  rewrite Hgone. unfold without. cbn [List.filter]. rewrite Nat.eqb_refl. cbn [negb].
  destruct arrived as [message|[|]].
  - cbn. by rewrite <- app_assoc.
  - cbn -[json_settled]. rewrite Nat.eqb_refl. cbn -[json_settled].
    erewrite json_settled_reports; [|reflexivity|reflexivity].
    cbn [snd]. destruct read as [message|result].
    + rewrite remove_fresh.
      * cbn. by rewrite <- app_assoc.
      * intros id cls txt [Hin|Hin]%elem_of_app.
        -- assert (id < created c)%nat; [|lia]. apply (Hnum id cls txt).
           unfold shown. by rewrite Hh.
        -- apply list_elem_of_singleton in Hin. injection Hin as -> _ _. lia.
    + cbn. rewrite <- app_assoc. by destruct (success result).
  - cbn. by rewrite <- app_assoc.
Qed.

Lemma loading_after_remove (element : nat) (h : list Node) :
  omap is_loading (List.filter (λ n, negb (is_element element n)) h) =
  without element (omap is_loading h).
Proof.
  unfold without. induction h as [|n h IH]; [done|].
  destruct n as [html|id cls txt]; cbn; [exact IH|].
  destruct (Nat.eqb_spec id element) as [->|Hne]; cbn;
    destruct (String.eqb cls "loading"); cbn; rewrite ?Nat.eqb_refl; cbn;
    try done.
  - replace (id =? element)%nat with false
      by (symmetry; by apply Nat.eqb_neq).
    cbn. by rewrite IH.
Qed.

Lemma without_twice (element : nat) (l : list nat) :
  without element (without element l) = without element l.
Proof.
  unfold without. induction l as [|x l IH]; [done|]. cbn [List.filter].
  destruct (negb (x =? element)%nat) eqn:Hx; [|done].
  cbn [List.filter]. by rewrite Hx, IH.
Qed.

Lemma without_subseteq (element : nat) (l1 l2 : list nat) :
  l1 ⊆ l2 → without element l1 ⊆ without element l2.
Proof.
  intros Hsub x. unfold without.
  rewrite !list_elem_of_In, !filter_In, <- !list_elem_of_In.
  intros [Hx ?]. split; [by apply Hsub|done].
Qed.

Lemma without_subseteq_self (element : nat) (l : list nat) :
  without element l ⊆ l.
Proof.
  intros x. unfold without. rewrite !list_elem_of_In, filter_In. tauto.
Qed.

#[local] Ltac loading :=
  unfold loading_elements, shown; cbn -[without];
  repeat (progress (rewrite ?omap_app, ?loading_after_remove, ?without_twice,
                      ?app_nil_r; cbn -[without])).

Lemma executeCommand_loading (c : Console) :
  match (executeCommand c).1 with
  | Js.Normal (Some (_, element)) =>
      loading_elements (executeCommand c).2 = (loading_elements c ++ [element])%list
  | _ => loading_elements (executeCommand c).2 = loading_elements c
  end.
Proof.
  destruct c as [[t|] [h|] [i|] cmds n]; run_js; try done;
    destruct (nonempty (Text.trim (value i))); cbn; try done; loading;
    try done.
Qed.

Lemma fetch_settled_loading (c : Console) (element : nat) (outcome : FetchOutcome) :
  loading_elements (fetch_settled message_of element outcome c).2 =
  without element (loading_elements c).
Proof.
  destruct c as [[t|] [h|] [i|] cmds n], outcome as [message|[|]];
    run_js; loading; done.
Qed.

Lemma json_settled_loading (c : Console) (element : nat) (outcome : JsonOutcome) :
  loading_elements (json_settled message_of element outcome c).2 ⊆ loading_elements c.
Proof.
  destruct c as [[t|] [h|] [i|] cmds n], outcome as [message|[[|] out err]];
    run_js; try destruct (nonempty (Text.trim out)); cbn; loading;
    try done; try apply without_subseteq_self.
Qed.

Lemma clear_loading (c : Console) : loading_elements (clear c).2 = [].
Proof. destruct c as [[t|] [h|] [i|] cmds n]; run_js; done. Qed.

Lemma step_loading (s : Session) (a : Action) :
  loading_elements (console s) ⊆ awaiting_fetch s →
  loading_elements (console (step message_of s a)) ⊆
  awaiting_fetch (step message_of s a).
Proof.
  intros Hinv. destruct a as [text| |element outcome|element outcome|];
    cbn [step].
  - cbn [console awaiting_fetch].
    destruct (console s) as [t h [i|] cmds n] eqn:Hc; by rewrite ?Hc in *.
  - pose proof (executeCommand_loading (console s)) as Hexec.
    destruct (executeCommand (console s)) as [[[[request element]|]|e] c];
      cbn [fst snd console awaiting_fetch] in *; rewrite Hexec; try done.
    intros x [Hx|Hx]%elem_of_app; apply elem_of_app; [left; by apply Hinv|by right].
  - destruct (existsb _ _); [|done].
    pose proof (fetch_settled_loading (console s) element outcome) as Hf.
    destruct (fetch_settled message_of element outcome (console s))
      as [[[?|]|e] c]; cbn [fst snd console awaiting_fetch] in *;
      rewrite Hf; by apply without_subseteq.
  - destruct (existsb _ _); [|done]. cbn [console awaiting_fetch].
    etrans; [apply json_settled_loading|done].
  - cbn [console awaiting_fetch]. rewrite clear_loading.
    intros x Hx. by apply elem_of_nil in Hx.
Qed.

(** Whatever the user does and however the requests settle, a loading
    indicator in the history belongs to a call that still awaits its
    [fetch]: when no request is under way none is shown. *)
Theorem no_stale_loading_indicator (c : Console) (actions : list Action) :
  loading_elements c = [] →
  loading_elements (console (run message_of actions (opened c))) ⊆
  awaiting_fetch (run message_of actions (opened c)).
Proof.
  intros Hc.
  enough (∀ s, loading_elements (console s) ⊆ awaiting_fetch s →
               loading_elements (console (run message_of actions s)) ⊆
               awaiting_fetch (run message_of actions s)) as H.
  { apply H. cbn. rewrite Hc. intros x Hx. by apply elem_of_nil in Hx. }
  induction actions as [|a actions IH]; intros s Hs; [done|].
  unfold run in *. cbn [foldl]. by apply IH, step_loading.
Qed.

(** [clear] does not cancel a command that is under way: its report is
    added to the cleared history, after the welcome message, and the
    command is not in [commandHistory]. *)
Theorem clear_does_not_cancel (c : Console) (t : nat) (h : list Node)
    (i : Input) (arrived : FetchOutcome) (read : JsonOutcome) :
  terminalTarget c = Some t → historyTarget c = Some h → inputTarget c = Some i →
  Text.trim (value i) ≠ "" →
  console
    (run message_of
       [Executes; Clears; FetchSettles (S (created c)) arrived;
        JsonSettles (S (created c)) read] (opened c)) =
  {| terminalTarget := Some (S (S (S (S t))));
     historyTarget :=
       Some [Rendered welcome_message;
             match arrived, read with
             | FetchRejected message, _
             | Responded true, JsonRejected message =>
                 Element (S (S (created c))) "command-error"
                   ("Error: " ++ message)
             | Responded false, _ =>
                 Element (S (S (created c))) "command-error"
                   "Error: Failed to execute command"
             | Responded true, JsonResolved result =>
                 if success result then
                   Element (S (S (created c))) "command-output"
                     (if nonempty (Text.trim (output result))
                      then output result
                      else "Query executed successfully.")
                 else
                   Element (S (S (created c))) "command-error"
                     ("Error: " ++ match error result with
                                   | Some (String a rest) => String a rest
                                   | _ => "Unknown error occurred"
                                   end)
             end];
     inputTarget := Some {| value := ""; focused := true |};
     commandHistory := [];
     created := S (S (S (created c))) |}.
Proof.
  intros Ht Hh Hi Hcmd. unfold run, opened. cbn [foldl].
  unfold step at 4. cbn [console sent awaiting_fetch awaiting_json].
  rewrite (executeCommand_sends c t h i Ht Hh Hi Hcmd).
  unfold step at 3. cbn [console sent awaiting_fetch awaiting_json app].
  unfold step at 2. cbn [console sent awaiting_fetch awaiting_json existsb].
  rewrite Nat.eqb_refl. cbn [orb].
  erewrite fetch_settled_reports; [|reflexivity|reflexivity].
  unfold without. cbn [List.filter]. rewrite Nat.eqb_refl. cbn [negb].
  destruct arrived as [message|[|]]; [done| |done].
  cbn -[json_settled welcome_message]. rewrite Nat.eqb_refl.
  cbn -[json_settled welcome_message].
  erewrite json_settled_reports; [|reflexivity|reflexivity].
  destruct read as [message|result]; [done|]. cbn -[welcome_message].
  by destruct (success result).
Qed.

(** Without the terminal target the command is echoed and no more: the
    call throws where [addToHistory] would scroll, before the input is
    emptied and before anything is sent. *)
Theorem executeCommand_without_terminal (c : Console) (h : list Node) (i : Input) :
  terminalTarget c = None → historyTarget c = Some h → inputTarget c = Some i →
  Text.trim (value i) ≠ "" →
  executeCommand c =
  (Js.Throw (Js.MissingTarget "terminal"),
   {| terminalTarget := None;
      historyTarget :=
        Some (h ++ [Element (created c) "user-command"
                      ("sqlite> " ++ Text.trim (value i))])%list;
      inputTarget := Some i;
      commandHistory := commandHistory c;
      created := S (created c) |}).
Proof.
  intros Ht Hh Hi Hcmd. destruct c as [? ? ? cmds n]. cbn in *. subst.
  run_js. by destruct (Text.trim (value i)) as [|a cmd] eqn:Htrim.
Qed.

(** No step looks at [commandHistory]. *)
Lemma step_forgets (s1 s2 : Session) (a : Action) :
  terminalTarget (console s1) = terminalTarget (console s2) →
  historyTarget (console s1) = historyTarget (console s2) →
  inputTarget (console s1) = inputTarget (console s2) →
  created (console s1) = created (console s2) →
  sent s1 = sent s2 → awaiting_fetch s1 = awaiting_fetch s2 →
  awaiting_json s1 = awaiting_json s2 →
  let s1' := step message_of s1 a in
  let s2' := step message_of s2 a in
  terminalTarget (console s1') = terminalTarget (console s2')
  ∧ historyTarget (console s1') = historyTarget (console s2')
  ∧ inputTarget (console s1') = inputTarget (console s2')
  ∧ created (console s1') = created (console s2')
  ∧ sent s1' = sent s2' ∧ awaiting_fetch s1' = awaiting_fetch s2'
  ∧ awaiting_json s1' = awaiting_json s2'.
Proof.
  destruct s1 as [[t1 h1 i1 cmds1 n1] sent1 af1 aj1],
           s2 as [[t2 h2 i2 cmds2 n2] sent2 af2 aj2].
  cbn [console terminalTarget historyTarget inputTarget created sent
         awaiting_fetch awaiting_json].
  intros -> -> -> -> -> -> ->.
  destruct a as [text| |element outcome|element outcome|]; cbn [step console
    sent awaiting_fetch awaiting_json].
  - by destruct i2.
  - destruct t2, h2, i2; run_js; try done;
      destruct (nonempty (Text.trim (value i))); by cbn.
  - destruct (existsb _ _); [|done].
    destruct t2, h2, outcome as [message|[|]]; run_js; done.
  - destruct (existsb _ _); [|done].
    destruct t2, h2, outcome as [message|[[|] out err]]; run_js; try done;
      destruct (nonempty (Text.trim out)); by cbn.
  - destruct t2, h2, i2; run_js; done.
Qed.

(** [commandHistory] is written and never read: two sessions that differ
    in it alone show, send and await the same, whatever happens. *)
Theorem commandHistory_is_never_read (s : Session) (cmds : list string)
    (actions : list Action) :
  let s1 := run message_of actions s in
  let s2 := run message_of actions
              {| console := set_commandHistory cmds (console s);
                 sent := sent s; awaiting_fetch := awaiting_fetch s;
                 awaiting_json := awaiting_json s |} in
  set_commandHistory [] (console s2) = set_commandHistory [] (console s1)
  ∧ sent s2 = sent s1 ∧ awaiting_fetch s2 = awaiting_fetch s1
  ∧ awaiting_json s2 = awaiting_json s1.
Proof.
  set (same := λ s1 s2 : Session,
         terminalTarget (console s1) = terminalTarget (console s2)
         ∧ historyTarget (console s1) = historyTarget (console s2)
         ∧ inputTarget (console s1) = inputTarget (console s2)
         ∧ created (console s1) = created (console s2)
         ∧ sent s1 = sent s2 ∧ awaiting_fetch s1 = awaiting_fetch s2
         ∧ awaiting_json s1 = awaiting_json s2).
  assert (Hrun : ∀ s1 s2, same s1 s2 →
                   same (run message_of actions s1) (run message_of actions s2)).
  { induction actions as [|a actions IH]; intros s1 s2 Hs; [done|].
    unfold run in *. cbn [foldl]. apply IH.
    destruct Hs as (? & ? & ? & ? & ? & ? & ?). by apply step_forgets. }
  intros s1 s2.
  destruct (Hrun {| console := set_commandHistory cmds (console s);
                    sent := sent s; awaiting_fetch := awaiting_fetch s;
                    awaiting_json := awaiting_json s |} s)
    as (Ht & Hh & Hi & Hn & ? & ? & ?); [done|].
  fold s1 s2 in Ht, Hh, Hi, Hn |- *. split; [|done].
  unfold set_commandHistory. by rewrite Ht, Hh, Hi, Hn.
Qed.

Lemma executeCommand_request (c c' : Console) (request : Request) (element : nat) :
  executeCommand c = (Js.Normal (Some (request, element)), c') →
  url request = "/admin/sqlite/execute" ∧ method request = "POST"
  ∧ content_type request = "application/json" ∧ query request ≠ "".
Proof.
  destruct c as [[t|] [h|] [i|] cmds n]; run_js; try done;
    destruct (Text.trim (value i)) as [|a cmd] eqn:Htrim; cbn; try done;
    intros; simplify_eq; cbn; by rewrite ?Htrim.
Qed.

(** Every request the console sends is a POST of JSON to
    "/admin/sqlite/execute" with a query that is not empty. *)
Theorem never_sends_a_blank_query (c : Console) (actions : list Action) :
  Forall (λ request, url request = "/admin/sqlite/execute"
                     ∧ method request = "POST"
                     ∧ content_type request = "application/json"
                     ∧ query request ≠ "")
    (sent (run message_of actions (opened c))).
Proof.
  assert (Hstart : Forall (λ request, url request = "/admin/sqlite/execute"
                     ∧ method request = "POST"
                     ∧ content_type request = "application/json"
                     ∧ query request ≠ "") (sent (opened c))) by apply Forall_nil_2.
  revert Hstart. generalize (opened c).
  induction actions as [|a actions IH]; intros s Hs; [done|].
  unfold run in *. cbn [foldl]. apply IH. clear IH.
  destruct a as [text| |element outcome|element outcome|]; cbn [step]; try done.
  - destruct (executeCommand (console s)) as [[[[request element]|]|e] c'] eqn:Hexec;
      cbn [sent]; try done.
    apply Forall_app. split; [done|]. apply Forall_singleton.
    by eapply executeCommand_request.
  - destruct (existsb _ _); [|done].
    by destruct (fetch_settled _ _ _ _) as [[[?|]|?] ?].
  - by destruct (existsb _ _).
Qed.

End Runtime.

Lemma blank_command_does_nothing_witness :
  let c := {| terminalTarget := Some 0; historyTarget := Some [];
              inputTarget := Some {| value := "   "; focused := true |};
              commandHistory := []; created := 0 |} in
  step (λ _, "") (opened c) Executes = opened c.
Proof.
  intros c. unfold step, opened. cbn [console].
  rewrite (blank_command_does_nothing c {| value := "   "; focused := true |}
             eq_refl); [done|].
  repeat constructor.
Defined.

(** ".tables", typed with spaces around it, answered with "users". *)
Lemma command_runs_to_completion_witness :
  let c := {| terminalTarget := Some 0;
              historyTarget := Some [Rendered welcome_message];
              inputTarget := Some {| value := " .tables "; focused := true |};
              commandHistory := []; created := 0 |} in
  shown (console
           (run (λ _, "")
              [Executes; FetchSettles 1 (Responded true);
               JsonSettles 1 (JsonResolved {| success := true; output := "users";
                                              error := None |})]
              (opened c))) =
  [Rendered welcome_message; Element 0 "user-command" "sqlite> .tables";
   Element 2 "command-output" "users"].
Proof.
  intros c.
  refine (f_equal (λ s, shown (console s))
            (command_runs_to_completion (λ _, "") c 0 [Rendered welcome_message]
               {| value := " .tables "; focused := true |} (Responded true)
               (JsonResolved {| success := true; output := "users";
                                error := None |})
               eq_refl eq_refl eq_refl _ _)).
  - intros id className text Hin. by apply list_elem_of_singleton in Hin.
  - by vm_compute.
Defined.

Lemma no_stale_loading_indicator_witness :
  let c := {| terminalTarget := Some 0; historyTarget := Some [];
              inputTarget := Some {| value := ".tables"; focused := true |};
              commandHistory := []; created := 0 |} in
  loading_elements
    (console (run (λ _, "") [Executes; Types ".schema"; Executes;
                             FetchSettles 1 (Responded false)] (opened c))) ⊆
  awaiting_fetch (run (λ _, "") [Executes; Types ".schema"; Executes;
                                 FetchSettles 1 (Responded false)] (opened c)).
Proof. intros c. by apply no_stale_loading_indicator. Defined.

(** The console is cleared while ".tables" is under way. *)
Lemma clear_does_not_cancel_witness :
  let c := {| terminalTarget := Some 0; historyTarget := Some [];
              inputTarget := Some {| value := ".tables"; focused := false |};
              commandHistory := []; created := 0 |} in
  shown (console
           (run (λ _, "")
              [Executes; Clears; FetchSettles 1 (Responded true);
               JsonSettles 1 (JsonResolved {| success := true; output := "users";
                                              error := None |})]
              (opened c))) =
  [Rendered welcome_message; Element 2 "command-output" "users"].
Proof.
  intros c.
  refine (f_equal shown
            (clear_does_not_cancel (λ _, "") c 0 []
               {| value := ".tables"; focused := false |} (Responded true)
               (JsonResolved {| success := true; output := "users";
                                error := None |})
               eq_refl eq_refl eq_refl _)).
  by vm_compute.
Defined.

Lemma executeCommand_without_terminal_witness :
  let c := {| terminalTarget := None; historyTarget := Some [];
              inputTarget := Some {| value := ".tables"; focused := true |};
              commandHistory := []; created := 0 |} in
  executeCommand c =
  (Js.Throw (Js.MissingTarget "terminal"),
   {| terminalTarget := None;
      historyTarget := Some [Element 0 "user-command" "sqlite> .tables"];
      inputTarget := Some {| value := ".tables"; focused := true |};
      commandHistory := []; created := 1 |}).
Proof.
  intros c.
  refine (executeCommand_without_terminal c []
            {| value := ".tables"; focused := true |} eq_refl eq_refl eq_refl _).
  by vm_compute.
Defined.

End SqliteConsoleProps.

(** ** Log viewer *)

Module LogConsoleProps.
Import LogConsole.

#[local] Ltac run_js :=
  unfold connect, disconnect, handleVisibilityChange, on_interval, clear,
    clear_settled, alert, refresh, toggleAutoScroll, autoScrollToBottom,
    startAutoRefresh, stopAutoRefresh, bind_handleVisibilityChange,
    get_outputTarget, get_autoScrollTarget, hasAutoScrollTarget,
    mbind, M_bind, Js.bind, mret, M_ret, Js.gets, Js.modify, Js.ret, Js.throw;
  cbn.

(** No listener is the function that is made next. *)
Lemma keep_all (made : nat) (ls : list nat) :
  Forall (λ f, (f ≤ made)%nat) ls →
  List.filter (λ g, negb (g =? S made)%nat) ls = ls.
Proof.
  induction 1 as [|f ls Hf _ IH]; [done|]. cbn [List.filter].
  replace (f =? S made)%nat with false by (symmetry; apply Nat.eqb_neq; lia).
  cbn [negb]. by rewrite IH.
Qed.

(** The listeners run in turn on a "visibilitychange" event touch the
    timers only. *)
Lemma handlers_keep (ls : list nat) (q : Page) :
  let r := foldl (λ p _, (handleVisibilityChange p).2) q ls in
  listeners r = listeners q ∧ functions_made r = functions_made q
  ∧ hidden r = hidden q ∧ outputTarget r = outputTarget q
  ∧ autoScrollTarget r = autoScrollTarget q ∧ reloads r = reloads q.
Proof.
  revert q. induction ls as [|l ls IH]; intros q; [done|]. cbn [foldl].
  destruct (IH (handleVisibilityChange q).2) as (-> & -> & -> & -> & -> & ->).
  destruct q as [? ? [[|id]|] ? ? ? ? [|] ? ? ?]; run_js; done.
Qed.

(** On a page with its output only [connect] changes the listeners: it
    adds one. *)
Lemma step_listeners (p : Page) (a : Action) :
  fresh p → outputTarget p ≠ None →
  fresh (step p a) ∧ outputTarget (step p a) ≠ None
  ∧ listeners (step p a) =
    (listeners p ++ if is_connect a then [S (functions_made p)] else [])%list.
Proof.
  unfold fresh. intros Hold Hout.
  destruct a as [| | |id|box| |confirmed|outcome]; cbn [step is_connect];
    rewrite ?app_nil_r.
  - destruct p as [[n|] [[[|]]|] cur set made ls fs h r al ca]; [..|done|done|done];
      run_js; cbn in Hold; (split; [|done]);
      (apply Forall_app; split;
       [eapply Forall_impl; [exact Hold|]; cbn; lia
       |apply Forall_singleton; lia]).
  - pose proof (keep_all _ _ Hold) as Hkeep.
    destruct p as [out box [[|id]|] set made ls fs h r al ca]; run_js;
      cbn in Hold, Hkeep, Hout; rewrite Hkeep;
      (split; [|done]);
      (eapply Forall_impl; [exact Hold|]; cbn; lia).
  - destruct (handlers_keep (listeners p) (set_hidden (negb (hidden p)) p))
      as (-> & -> & _ & -> & _). done.
  - destruct (existsb _ _); [|done].
    destruct p as [out box cur set made ls fs [|] r al ca]; run_js; done.
  - destruct p as [out [b|] cur set made ls fs h r al ca]; cbn; done.
  - destruct p as [[n|] [[[|]]|] cur set made ls fs h r al ca]; run_js; done.
  - destruct p as [out box cur set made ls fs h r al ca], confirmed; run_js; done.
  - destruct p as [out box cur set made ls fs h r al [|ca]],
      outcome as [message|[|]]; run_js; done.
Qed.

Lemma run_listeners (actions : list Action) (p : Page) :
  fresh p → outputTarget p ≠ None →
  fresh (run actions p) ∧ outputTarget (run actions p) ≠ None
  ∧ List.length (listeners (run actions p)) =
    (List.length (listeners p) + List.length (List.filter is_connect actions))%nat.
Proof.
  revert p. induction actions as [|a actions IH]; intros p Hfresh Hout.
  { cbn. split; [done|]. split; [done|lia]. }
  destruct (step_listeners p a Hfresh Hout) as (Hfresh' & Hout' & Hls).
  destruct (IH (step p a) Hfresh' Hout') as (? & ? & Hlen).
  unfold run in *. cbn [foldl]. split; [done|]. split; [done|].
  rewrite Hlen, Hls, length_app. cbn [List.filter].
  destruct (is_connect a); cbn [List.length]; lia.
Qed.

(** [disconnect] takes no listener off the document: it hands
    [removeEventListener] a function [bind] has just made, which is none
    of those [connect] registered.  On a page with its output target
    there are as many "visibilitychange" listeners as [connect] was run,
    whatever else has happened. *)
Theorem disconnect_removes_no_listener (n : nat) (box : option Checkbox)
    (is_hidden : bool) (actions : list Action) :
  List.length (listeners (run actions (loaded (Some n) box is_hidden))) =
  List.length (List.filter is_connect actions).
Proof.
  destruct (run_listeners actions (loaded (Some n) box is_hidden))
    as (_ & _ & ->); [by apply Forall_nil|done|done].
Qed.

Lemma show_starts (p : Page) :
  hidden p = true → listeners p ≠ [] →
  hidden (step p VisibilityChange) = false
  ∧ listeners (step p VisibilityChange) = listeners p
  ∧ ∃ id, refreshInterval (step p VisibilityChange) = Some id
          ∧ id ∈ intervals (step p VisibilityChange).
Proof.
  intros Hh Hls. cbn [step].
  destruct (handlers_keep (listeners p) (set_hidden (negb (hidden p)) p))
    as (Hl & _ & Hhid & _).
  split; [by rewrite Hhid, Hh|]. split; [done|]. clear Hl.
  destruct (listeners p) as [|l ls _] using rev_ind; [done|].
  rewrite foldl_app. cbn [foldl].
  pose proof (handlers_keep ls (set_hidden (negb (hidden p)) p)) as (_ & _ & Hhid' & _).
  rewrite Hh in *. cbn in Hhid'.
  destruct (foldl _ _ ls) as [? ? ? set made ? ? ? ? ? ?]. cbn in Hhid'. subst.
  run_js. eexists. split; [done|]. apply elem_of_app. right. by left.
Qed.

Lemma hide_keeps (p : Page) :
  hidden p = false →
  hidden (step p VisibilityChange) = true
  ∧ listeners (step p VisibilityChange) = listeners p.
Proof.
  intros Hh. cbn [step].
  destruct (handlers_keep (listeners p) (set_hidden (negb (hidden p)) p))
    as (-> & _ & -> & _). by rewrite Hh.
Qed.

Lemma tick_reloads (p : Page) (id : nat) :
  hidden p = false → id ∈ intervals p →
  reloads (step p (Interval id)) = S (reloads p).
Proof.
  intros Hh Hid. cbn [step].
  assert (existsb (Nat.eqb id) (intervals p) = true) as ->.
  { apply existsb_exists. exists id. rewrite Nat.eqb_refl.
    split; [by apply list_elem_of_In|done]. }
  destruct p as [? ? ? ? ? ? ? ? ? ? ?]. cbn in Hh. subst. by run_js.
Qed.

(** A controller that was connected and is disconnected refreshes again:
    once the document is shown again, its listeners, still registered,
    have set a timer, [refreshInterval] holds its id, and the tick of that
    timer reloads the page. *)
Theorem disconnected_viewer_refreshes_again (n : nat) (box : option Checkbox)
    (is_hidden : bool) (actions : list Action) :
  Connect ∈ actions →
  let q := run (actions ++ [Disconnect]) (loaded (Some n) box is_hidden) in
  let r := run (if hidden q then [VisibilityChange]
                else [VisibilityChange; VisibilityChange]) q in
  hidden r = false
  ∧ ∃ id, refreshInterval r = Some id ∧ id ∈ intervals r
          ∧ reloads (step r (Interval id)) = S (reloads r).
Proof.
  intros Hin q r.
  assert (Hq : listeners q ≠ []).
  { destruct (run_listeners (actions ++ [Disconnect]) (loaded (Some n) box is_hidden))
      as (_ & _ & Hlen); [by apply Forall_nil|done|].
    fold q in Hlen. intros Hnil. rewrite Hnil in Hlen. cbn in Hlen.
    rewrite List.filter_app, length_app in Hlen.
    apply list_elem_of_In in Hin.
    assert (In Connect (List.filter is_connect actions)) as Hc
      by (by apply filter_In).
    destruct (List.filter is_connect actions); [done|cbn in Hlen; lia]. }
  assert (∃ q', hidden q' = true ∧ listeners q' ≠ []
                ∧ r = step q' VisibilityChange) as (q' & Hh & Hls & ->).
  { subst r. destruct (hidden q) eqn:Hh.
    - by exists q.
    - exists (step q VisibilityChange).
      destruct (hide_keeps q Hh) as [-> ->]. done. }
  destruct (show_starts q' Hh Hls) as (Hvis & _ & id & Hid & Hset).
  split; [done|]. exists id. split; [done|]. split; [done|].
  by apply tick_reloads.
Qed.

(** A viewer that is connected once, on a visible page with its output
    target, and is neither connected again nor disconnected: while the
    document is hidden no timer is set, while it is visible exactly one,
    the one [refreshInterval] names. *)
Theorem one_timer_while_visible (n : nat) (box : option Checkbox)
    (actions : list Action) :
  Forall (λ a, a ≠ Connect ∧ a ≠ Disconnect) actions →
  let p := run (Connect :: actions) (loaded (Some n) box false) in
  if hidden p then refreshInterval p = None ∧ intervals p = []
  else ∃ id, refreshInterval p = Some id ∧ intervals p = [id].
Proof.
  intros Hactions.
  set (inv := λ p : Page,
         (∃ f, listeners p = [f])
         ∧ if hidden p then refreshInterval p = None ∧ intervals p = []
           else ∃ k, refreshInterval p = Some (S k) ∧ intervals p = [S k]).
  enough (inv (run (Connect :: actions) (loaded (Some n) box false))) as [_ H].
  { cbn zeta. destruct (hidden _); [done|]. destruct H as (k & ? & ?). by exists (S k). }
  assert (Hstart : inv (step (loaded (Some n) box false) Connect)).
  { destruct box as [[[|]]|]; run_js; (split; [by eexists|by eexists]). }
  unfold run. cbn [foldl]. revert Hstart.
  generalize (step (loaded (Some n) box false) Connect).
  induction Hactions as [|a actions [Hc Hd] _ IH]; intros p Hp; [done|].
  cbn [foldl]. apply IH. clear IH. pose proof Hp as [[f Hf] Htimer].
  destruct a as [| | |id|b| |confirmed|outcome]; [done|done|..]; cbn [step].
  - rewrite Hf. cbn [foldl].
    destruct p as [out bx cur set made ls fs [|] r al ca]; cbn in *.
    + destruct Htimer as [-> ->]. run_js. split; by eexists.
    + destruct Htimer as (k & -> & ->). run_js. rewrite Nat.eqb_refl. cbn.
      split; [by eexists|done].
  - destruct (existsb _ _); [|done].
    destruct p as [out bx cur set made ls fs [|] r al ca]; run_js; cbn in *;
      (split; [by eexists|done]).
  - destruct p as [out [bx|] cur set made ls fs h r al ca]; cbn in *;
      (split; [by eexists|done]).
  - destruct p as [[o|] [[[|]]|] cur set made ls fs h r al ca]; run_js; cbn in *;
      (split; [by eexists|done]).
  - destruct p as [out bx cur set made ls fs h r al ca], confirmed; run_js;
      cbn in *; (split; [by eexists|done]).
  - destruct p as [out bx cur set made ls fs h r al [|ca]],
      outcome as [message|[|]]; run_js; cbn in *; (split; [by eexists|done]).
Qed.

Lemma startAutoRefresh_replaced (id : nat) (p : Page) :
  replaced id p → replaced id (startAutoRefresh p).2.
Proof.
  unfold replaced. intros (Hin & Hcur & Hle).
  destruct p as [? ? ? ? ? ? ? ? ? ? ?]. run_js.
  cbn in *. split; [apply elem_of_app; by left|]. split; [|lia].
  intros [= <-]. lia.
Qed.

Lemma stopAutoRefresh_replaced (id : nat) (p : Page) :
  replaced id p → replaced id (stopAutoRefresh p).2.
Proof.
  unfold replaced. intros (Hin & Hcur & Hle).
  destruct p as [? ? [[|cur]|] set ? ? ? ? ? ? ?]; run_js; cbn in *;
    try done.
  split; [|done]. apply list_elem_of_In, filter_In.
  split; [by apply list_elem_of_In|].
  apply negb_true_iff, Nat.eqb_neq. congruence.
Qed.

Lemma handlers_replaced (id : nat) (ls : list nat) (p : Page) :
  replaced id p →
  replaced id (foldl (λ p _, (handleVisibilityChange p).2) p ls).
Proof.
  revert p. induction ls as [|l ls IH]; intros p Hp; [done|]. cbn [foldl].
  apply IH. unfold handleVisibilityChange, mbind, M_bind, Js.bind, Js.gets.
  cbn. destruct (hidden p);
    [by apply stopAutoRefresh_replaced|by apply startAutoRefresh_replaced].
Qed.

Lemma step_replaced (id : nat) (p : Page) (a : Action) :
  replaced id p → replaced id (step p a).
Proof.
  intros Hp. destruct a as [| | |t|b| |confirmed|outcome]; cbn [step].
  - unfold connect, mbind, M_bind, Js.bind.
    destruct (autoScrollToBottom p) as [[[]|e] p1] eqn:Hscroll.
    + assert (replaced id p1) as Hp1.
      { revert Hscroll. destruct p as [[o|] [[[|]]|] ? ? ? ? ? ? ? ? ?]; run_js;
          intros ?; simplify_eq; exact Hp. }
      apply startAutoRefresh_replaced in Hp1.
      destruct (startAutoRefresh p1) as [[[]|e] p2] eqn:Hstart; [|by run_js].
      cbn in Hp1. destruct p2. run_js. exact Hp1.
    + cbn. revert Hscroll.
      destruct p as [[o|] [[[|]]|] ? ? ? ? ? ? ? ? ?]; run_js;
        intros ?; simplify_eq; exact Hp.
  - unfold disconnect, mbind, M_bind, Js.bind.
    apply stopAutoRefresh_replaced in Hp.
    destruct (stopAutoRefresh p) as [[[]|e] p1] eqn:Hstop.
    + cbn in Hp. destruct p1. run_js. exact Hp.
    + exact Hp.
  - apply handlers_replaced. by destruct p.
  - destruct (existsb _ _); [|done].
    destruct p as [? ? ? ? ? ? ? [|] ? ? ?]; run_js; exact Hp.
  - destruct p as [? [bx|] ? ? ? ? ? ? ? ? ?]; exact Hp.
  - destruct p as [[o|] [[[|]]|] ? ? ? ? ? ? ? ? ?]; run_js; exact Hp.
  - destruct p as [? ? ? ? ? ? ? ? ? ? ?], confirmed; run_js; exact Hp.
  - destruct p as [? ? ? ? ? ? ? ? ? ? [|ca]], outcome as [message|[|]];
      run_js; exact Hp.
Qed.

(** [startAutoRefresh] overwrites [refreshInterval] without clearing the
    timer it named.  A timer that is set and whose id [refreshInterval]
    does not hold is never cleared, whatever happens afterwards. *)
Theorem replaced_timer_is_never_cleared (p : Page) (id : nat)
    (actions : list Action) :
  id ∈ intervals p → refreshInterval p ≠ Some id → (id ≤ intervals_made p)%nat →
  id ∈ intervals (run actions p) ∧ refreshInterval (run actions p) ≠ Some id.
Proof.
  intros Hin Hcur Hle.
  enough (replaced id (run actions p)) as (? & ? & _) by done.
  assert (replaced id p) as Hp by done. clear Hin Hcur Hle.
  revert p Hp. induction actions as [|a actions IH]; intros p Hp; [done|].
  unfold run in *. cbn [foldl]. by apply IH, step_replaced.
Qed.

(** With the auto-scroll box checked and no output target, [connect]
    throws where it scrolls, before the timer and the listener: as long as
    the box is not unchecked the viewer has neither, however often it is
    connected. *)
Theorem viewer_without_output_never_refreshes (is_hidden : bool)
    (actions : list Action) :
  Forall (λ a, a ≠ Check false) actions →
  let p := run actions (loaded None (Some {| checked := true |}) is_hidden) in
  intervals p = [] ∧ listeners p = [] ∧ refreshInterval p = None.
Proof.
  intros Hactions.
  set (inv := λ p : Page,
         outputTarget p = None ∧ autoScrollTarget p = Some {| checked := true |}
         ∧ intervals p = [] ∧ listeners p = [] ∧ refreshInterval p = None).
  enough (inv (run actions (loaded None (Some {| checked := true |}) is_hidden)))
    as (_ & _ & ? & ? & ?) by done.
  assert (inv (loaded None (Some {| checked := true |}) is_hidden)) as Hp by done.
  revert Hp. generalize (loaded None (Some {| checked := true |}) is_hidden).
  induction Hactions as [|a actions Ha _ IH]; intros p Hp; [done|].
  unfold run in *. cbn [foldl]. apply IH. clear IH.
  destruct p as [out bx cur set made ls fs h r al ca].
  destruct Hp as (Ho & Hb & Hs & Hl & Hc). cbn in *. subst.
  destruct a as [| | |t|[|]| |confirmed|outcome]; cbn [step]; try done.
  - destruct confirmed; done.
  - destruct ca, outcome as [message|[|]]; done.
Qed.

(** Connected, disconnected, and the document hidden and shown again. *)
Lemma disconnected_viewer_refreshes_again_witness :
  let q := run ([Connect] ++ [Disconnect]) (loaded (Some 0) None false) in
  let r := run (if hidden q then [VisibilityChange]
                else [VisibilityChange; VisibilityChange]) q in
  hidden r = false
  ∧ ∃ id, refreshInterval r = Some id ∧ id ∈ intervals r
          ∧ reloads (step r (Interval id)) = S (reloads r).
Proof.
  apply (disconnected_viewer_refreshes_again 0 None false [Connect]).
  by left.
Defined.

Lemma one_timer_while_visible_witness :
  let p := run (Connect :: [VisibilityChange; Interval 1; VisibilityChange;
                            ToggleAutoScroll])
             (loaded (Some 0) None false) in
  if hidden p then refreshInterval p = None ∧ intervals p = []
  else ∃ id, refreshInterval p = Some id ∧ intervals p = [id].
Proof.
  apply (one_timer_while_visible 0 None
           [VisibilityChange; Interval 1; VisibilityChange; ToggleAutoScroll]).
  repeat (apply Forall_cons; split; [by split|]). apply Forall_nil_2.
Defined.

(** Connected while the document is hidden: the timer of [connect] is
    replaced when the document is shown. *)
Lemma replaced_timer_is_never_cleared_witness :
  let p := run [Connect; VisibilityChange] (loaded (Some 0) None true) in
  let q := run [Disconnect; VisibilityChange; VisibilityChange; Disconnect] p in
  1 ∈ intervals q ∧ refreshInterval q ≠ Some 1.
Proof.
  refine (replaced_timer_is_never_cleared
            (run [Connect; VisibilityChange] (loaded (Some 0) None true)) 1
            [Disconnect; VisibilityChange; VisibilityChange; Disconnect] _ _ _).
  - by left.
  - by vm_compute.
  - vm_compute. lia.
Defined.

Lemma viewer_without_output_never_refreshes_witness :
  let p := run [Connect; VisibilityChange; Connect; ToggleAutoScroll]
             (loaded None (Some {| checked := true |}) false) in
  intervals p = [] ∧ listeners p = [] ∧ refreshInterval p = None.
Proof.
  refine (viewer_without_output_never_refreshes false
            [Connect; VisibilityChange; Connect; ToggleAutoScroll] _).
  repeat (apply Forall_cons; split; [done|]). apply Forall_nil_2.
Defined.

End LogConsoleProps.
